(** * DeltaSnapshot (src/providers/database.ts): a shallow embedding

    The development follows the TypeScript class [DeltaSnapshot] member by
    member.  JavaScript values are a tagged union, objects are ordered
    lists of own data properties, snapshot instances live in a heap so
    that aliasing ([return this]) and allocation ([new DeltaSnapshot]) are
    visible, and the helpers imported from [../utils] are an interface. *)

From Stdlib Require Import String Ascii ZArith NArith List Bool Lia.
From Stdlib Require Import Decimal DecimalFacts DecimalN DecimalString.
From stdpp Require Import base option list.
Import ListNotations.

Set Warnings "-register-all".

Local Open Scope string_scope.
Local Open Scope list_scope.

(** ** JavaScript values

    The trees handled by the snapshot are JSON data: [undefined], [null],
    booleans, numbers, strings, plain objects and arrays.  An object is the
    list of its own enumerable data properties in property order; an array
    is the list of its slots, a hole being [None].  Numbers are the
    integer-valued ones (a fractional number is a scalar like any other
    for this file: it never is a valid length). *)

Inductive value : Type :=
| VUndef
| VNull
| VBool (b : bool)
| VNum (n : Z)
| VStr (s : string)
| VObj (props : list (string * value))
| VArr (elems : list (option value)).

Definition is_null (v : value) : bool :=
  match v with VNull => true | _ => false end.

Definition is_undefined (v : value) : bool :=
  match v with VUndef => true | _ => false end.

(** [_.isPlainObject]: object literals only; arrays, [null] and scalars
    are not plain objects. *)
Definition isPlainObject (v : value) : bool :=
  match v with VObj _ => true | _ => false end.

(** [_.keys] / [Object.keys] of a plain object: its own keys, in order. *)
Definition keys (v : value) : list string :=
  match v with VObj props => map fst props | _ => [] end.

(** ** Decimal keys *)

Definition is_digit (c : ascii) : bool :=
  let n := N_of_ascii c in (48 <=? n)%N && (n <=? 57)%N.

Definition is_nonzero_digit (c : ascii) : bool :=
  let n := N_of_ascii c in (49 <=? n)%N && (n <=? 57)%N.

Fixpoint all_digits (s : string) : bool :=
  match s with
  | EmptyString => true
  | String c rest => is_digit c && all_digits rest
  end.

(** [integerRegExp.test(key)], the expression being anchored at both
    ends: the key is the single digit 0, or a digit 1-9 followed by any
    number of digits. *)
Definition integerRegExp_test (key : string) : bool :=
  match key with
  | EmptyString => false
  | String c rest =>
      if Ascii.eqb c "0" then
        match rest with EmptyString => true | _ => false end
      else is_nonzero_digit c && all_digits rest
  end.

(** [Number(key)] on a key that passed the test: its decimal value.
    (Exact below 2^53, which the key of a tree that fits in memory and
    passes the density test always is.) *)
Definition Number (key : string) : N :=
  match NilEmpty.uint_of_string key with
  | Some d => N.of_uint d
  | None => 0%N
  end.

(** [String(i)] for a non-negative integer. *)
Definition String_of_index (i : N) : string :=
  NilEmpty.string_of_uint (N.to_uint i).

(** ** Own properties *)

Fixpoint obj_lookup (k : string) (props : list (string * value)) : option value :=
  match props with
  | [] => None
  | (k', v) :: rest => if String.eqb k k' then Some v else obj_lookup k rest
  end.

Definition obj_has (k : string) (props : list (string * value)) : bool :=
  match obj_lookup k props with Some _ => true | None => false end.

Fixpoint obj_update (k : string) (v : value) (props : list (string * value))
  : list (string * value) :=
  match props with
  | [] => []
  | (k', v') :: rest =>
      if String.eqb k k' then (k, v) :: rest else (k', v') :: obj_update k v rest
  end.

(** Array indices are the canonical integer keys below 2^32 - 1; the
    property order of an object lists them first, ascending, and then the
    other keys in insertion order. *)
Definition is_array_index (k : string) : bool :=
  integerRegExp_test k && (Number k <? 4294967295)%N.

Definition goes_before (k k' : string) : bool :=
  is_array_index k && (negb (is_array_index k') || (Number k <? Number k')%N).

Fixpoint obj_insert (k : string) (v : value) (props : list (string * value))
  : list (string * value) :=
  match props with
  | [] => [(k, v)]
  | (k', v') :: rest =>
      if goes_before k k' then (k, v) :: props
      else (k', v') :: obj_insert k v rest
  end.

(** [obj[key] = v] on an object created by [{}].  The key [__proto__]
    reaches the accessor of [Object.prototype]: no own property is
    created (a scalar is ignored; an object or [null] becomes the
    prototype, which this list of own properties does not show). *)
Definition obj_set (k : string) (v : value) (props : list (string * value))
  : list (string * value) :=
  if String.eqb k "__proto__" then props
  else if obj_has k props then obj_update k v props
  else obj_insert k v props.

(** [array[key] = v] for an index key: the slot is written, the array
    growing with holes as needed. *)
Fixpoint arr_set (i : nat) (v : value) (elems : list (option value))
  : list (option value) :=
  match i, elems with
  | O, [] => [Some v]
  | O, _ :: rest => Some v :: rest
  | S i', [] => None :: arr_set i' v []
  | S i', e :: rest => e :: arr_set i' v rest
  end.

(** ** lodash iteration

    [_.forEach(collection, f)] "iterates over elements of collection";
    lodash documents that "objects with a length property are iterated
    like arrays" (to avoid this, [_.forOwn] is to be used): when
    [collection.length] is a number, an integer, above -1 and at most
    [Number.MAX_SAFE_INTEGER], the callback receives [collection[i]] and
    the index [i] for [i] below the length.  Otherwise it receives the own
    properties in order. *)

Definition MAX_SAFE_INTEGER : Z := 9007199254740991.

Definition isLength (v : option value) : option N :=
  match v with
  | Some (VNum n) =>
      if (0 <=? n)%Z && (n <=? MAX_SAFE_INTEGER)%Z then Some (Z.to_N n) else None
  | _ => None
  end.

Definition indices (n : N) : list N := map N.of_nat (seq 0 (N.to_nat n)).

(** The pairs (key, child) visited by [_.forEach(node, ...)] on an object
    whose properties are [props]. *)
Definition forEach_object (props : list (string * value)) : list (string * value) :=
  match isLength (obj_lookup "length" props) with
  | Some n =>
      map (fun i => let k := String_of_index i in
                    (k, match obj_lookup k props with Some v => v | None => VUndef end))
          (indices n)
  | None => props
  end.

(** The pairs visited on an array: every slot, a hole read as
    [undefined]. *)
Definition forEach_array (elems : list (option value)) : list (string * value) :=
  map (fun '(i, e) => (String_of_index (N.of_nat i),
                       match e with Some v => v | None => VUndef end))
      (combine (seq 0 (length elems)) elems).

(** ** The array-inference normalizer *)

(** State of the loop of [_checkAndConvertToArray]: [obj], [numKeys],
    [maxKey], [allIntegerKeys]. *)
Record conv_state : Type := ConvState {
  cs_obj : list (string * value);
  cs_numKeys : N;
  cs_maxKey : N;
  cs_allIntegerKeys : bool
}.

Definition conv_init : conv_state := ConvState [] 0 0 true.

(** One call of the loop callback, the child already converted. *)
Definition conv_step (st : conv_state) (entry : string * value) : conv_state :=
  let '(key, child) := entry in
  let obj := obj_set key child (cs_obj st) in
  let numKeys := (cs_numKeys st + 1)%N in
  if cs_allIntegerKeys st && integerRegExp_test key
  then ConvState obj numKeys (N.max (cs_maxKey st) (Number key)) true
  else ConvState obj numKeys (cs_maxKey st) false.

(** One call of the callback of the second loop: [array[key] = val]. *)
Definition array_assign (arr : list (option value)) (entry : string * value)
  : list (option value) :=
  arr_set (N.to_nat (Number (fst entry))) (snd entry) arr.

(** [_.forOwn(obj, (val, key) => { array[key] = val; })] from [[]].
    The list of slots is exact for keys below 2^32 - 1, the array
    indices: a key from 2^32 - 1 on is stored by JavaScript beside the
    slots, as a named property, which this list does not show.  The
    density test lets such a key through only with more than 2^31
    entries; the statements that reach that far bound the entries. *)
Definition to_array (obj : list (string * value)) : list (option value) :=
  fold_left array_assign obj [].

Definition conv_finish (st : conv_state) : value :=
  if cs_allIntegerKeys st && (cs_maxKey st <? 2 * cs_numKeys st)%N
  then VArr (to_array (cs_obj st))
  else VObj (cs_obj st).

(** The loop, over the visited pairs whose child is already converted. *)
Definition conv_loop (entries : list (string * value)) : value :=
  conv_finish (fold_left conv_step entries conv_init).

(** A child absent from the node is read as [undefined], which converts
    to [null]. *)
Definition conv_missing (v : value) : value :=
  match v with VUndef => VNull | _ => v end.

(** [_checkAndConvertToArray(node)].  The children are converted by a
    structural pass over the properties (resp. slots); the callback order
    of [_.forEach] is then replayed over the converted children, which is
    the same computation since the conversion is pure. *)
Fixpoint _checkAndConvertToArray (node : value) : value :=
  match node with
  | VUndef | VNull => VNull
  | VBool _ | VNum _ | VStr _ => node
  | VObj props =>
      let converted :=
        map (fun kv => match kv with (k, c) => (k, _checkAndConvertToArray c) end) props in
      conv_loop
        (match isLength (obj_lookup "length" props) with
         | Some _ =>
             map (fun kv => (fst kv, conv_missing (snd kv))) (forEach_object converted)
         | None => converted
         end)
  | VArr elems =>
      let converted :=
        map (fun e => match e with
                      | Some c => Some (_checkAndConvertToArray c)
                      | None => None
                      end) elems in
      conv_loop
        (map (fun kv => (fst kv, conv_missing (snd kv))) (forEach_array converted))
  end.

(** ** lodash access and copy *)

(** [object[key]], restricted to own data properties: an object's own
    property, an array's slot or length, a string's character or length.
    JavaScript goes on along the prototype chain, where names such as
    [constructor] or [toString] are found; those hold functions, which
    are no values of this development, and read as [undefined] here.
    What is proved of reads below is proved of the own properties. *)
Definition char_at (s : string) (i : nat) : value :=
  match String.get i s with
  | Some c => VStr (String c EmptyString)
  | None => VUndef
  end.

Definition prop_get (object : value) (key : string) : value :=
  match object with
  | VObj props =>
      match obj_lookup key props with Some v => v | None => VUndef end
  | VArr elems =>
      if String.eqb key "length" then VNum (Z.of_nat (length elems))
      else if is_array_index key then
        match elems !! N.to_nat (Number key) with
        | Some (Some v) => v
        | _ => VUndef
        end
      else VUndef
  | VStr s =>
      if String.eqb key "length" then VNum (Z.of_nat (String.length s))
      else if is_array_index key then char_at s (N.to_nat (Number key))
      else VUndef
  | _ => VUndef
  end.

(** lodash [baseGet]: the loop runs while [object != null]; leaving it
    before the path is exhausted yields [undefined]. *)
Fixpoint baseGet (object : value) (path : list string) : value :=
  match path with
  | [] => object
  | key :: rest =>
      match object with
      | VUndef | VNull => VUndef
      | _ => baseGet (prop_get object key) rest
      end
  end.

(** [_.get(object, path, defaultValue)] *)
Definition get (object : value) (path : list string) (defaultValue : value) : value :=
  match object with
  | VUndef | VNull => defaultValue
  | _ => match baseGet object path with
         | VUndef => defaultValue
         | r => r
         end
  end.

(** [_.cloneDeep]: a structural copy; the slots of an array are all
    assigned, a hole becoming an [undefined] slot. *)
Fixpoint cloneDeep (v : value) : value :=
  match v with
  | VObj props =>
      VObj (map (fun kv => match kv with (k, c) => (k, cloneDeep c) end) props)
  | VArr elems =>
      VArr (map (fun e => match e with
                          | Some c => Some (cloneDeep c)
                          | None => Some VUndef
                          end) elems)
  | _ => v
  end.

(** ** The helpers imported from [../utils]

    Their source is not part of this file's subject; the snapshot code is
    embedded over this interface.  A path argument may be [undefined]
    (the offset of a snapshot that was never navigated, the optional
    group of the resource expression), hence the [option]. *)
Class Utils : Type := {
  normalizePath : option string -> string;
  pathParts : option string -> list string;
  joinPath : option string -> string -> string;
  valAt : value -> option string -> value;
  applyChange : value -> value -> value
}.

(** ** Raw events and the resource expression *)

Fixpoint strip_prefix (p s : string) : option string :=
  match p with
  | EmptyString => Some s
  | String a p' =>
      match s with
      | String b s' => if Ascii.eqb a b then strip_prefix p' s' else None
      | EmptyString => None
      end
  end.

Definition is_slash (c : ascii) : bool := Ascii.eqb c "/".

(** Line terminators, which the dot of a regular expression excludes
    (line feed and carriage return; the two Unicode separators have no
    one-character counterpart in these strings). *)
Definition is_line_terminator (c : ascii) : bool :=
  Ascii.eqb c "010" || Ascii.eqb c "013".

(** The longest prefix whose characters all fail [stop], and the rest. *)
Fixpoint span_until (stop : ascii -> bool) (s : string) : string * string :=
  match s with
  | EmptyString => (EmptyString, EmptyString)
  | String c rest =>
      if stop c then (EmptyString, s)
      else let '(a, b) := span_until stop rest in (String c a, b)
  end.

Definition is_empty (s : string) : bool :=
  match s with EmptyString => true | _ => false end.

(** The optional third group: a slash followed by at least one character
    other than a line terminator, taken greedily. *)
Definition match_ref_group (s : string) : option string :=
  match s with
  | String c rest =>
      if is_slash c then
        let '(p, _) := span_until is_line_terminator rest in
        if is_empty p then None else Some (String c p)
      else None
  | EmptyString => None
  end.

(** A match of [projects/([^/]+)/instances/([^/]+)/refs(/.+)?] starting at
    the first character of [s]: the three groups. *)
Definition match_here (s : string) : option (string * string * option string) :=
  match strip_prefix "projects/" s with
  | None => None
  | Some r1 =>
      let '(project, r2) := span_until is_slash r1 in
      if is_empty project then None else
      match strip_prefix "/instances/" r2 with
      | None => None
      | Some r3 =>
          let '(instance, r4) := span_until is_slash r3 in
          if is_empty instance then None else
          match strip_prefix "/refs" r4 with
          | None => None
          | Some r5 => Some (project, instance, match_ref_group r5)
          end
      end
  end.

(** [resource.match(new RegExp(resourceRegex))]: the expression carries no
    anchor, so the leftmost position where it matches is taken. *)
Fixpoint resource_match (s : string) : option (string * string * option string) :=
  match match_here s with
  | Some m => Some m
  | None =>
      match s with
      | EmptyString => None
      | String _ rest => resource_match rest
      end
  end.

(** The grammar that the specification gives for the resource,
    [projects/_/instances/<id>/refs(/<path>)?], read as a description of
    the whole string: [<id>] is a non-empty run without slash, [<path>] is
    not empty. *)
Definition conforms_to_grammar (s : string) : bool :=
  match strip_prefix "projects/_/instances/" s with
  | None => false
  | Some r =>
      let '(id, rest) := span_until is_slash r in
      negb (is_empty id) &&
      match strip_prefix "/refs" rest with
      | None => false
      | Some EmptyString => true
      | Some (String c p) => is_slash c && negb (is_empty p)
      end
  end.

(** The message of the resource-format error: the resource, then the
    expected format between double quotes. *)
Definition double_quote : string := String "034" EmptyString.

Definition expected_format : string :=
  String.append ". Expected string in the format of "
    (String.append double_quote
       (String.append "projects/_/instances/{firebaseioSubdomain}/refs/{ref=**}"
          double_quote)).

Definition resource_error (resource : string) : string :=
  String.append "Unexpected resource string for Firebase Realtime Database event: "
    (String.append resource expected_format).

(** ** Snapshots *)

Inductive outcome (A : Type) : Type :=
| Returned (a : A)
| Thrown (message : string).
Arguments Returned {A} a.
Arguments Thrown {A} message.

Definition did_throw {A : Type} (o : outcome A) : bool :=
  match o with Thrown _ => true | Returned _ => false end.

(** JavaScript truthiness of an optional string argument. *)
Definition truthy (s : option string) : bool :=
  match s with
  | Some s' => negb (is_empty s')
  | None => false
  end.

(** [s || ''] *)
Definition or_empty (s : option string) : string :=
  match s with Some s' => s' | None => EmptyString end.

Section Snapshot.

(** [apps.Apps] and [apps.AuthMode] are declared elsewhere. *)
Context {Apps AuthMode : Type}.
Context `{U : Utils}.

(** [RawEvent], as far as the constructor reads it: [resource], [auth],
    [data.data] and [data.delta]. *)
Record RawEvent : Type := {
  resource : string;
  auth : AuthMode;
  data : value;
  delta : value
}.

(** The instance fields.  A field never assigned is [undefined]:
    [None] for the strings and the auth mode, [VUndef] for the trees;
    [_isPrevious] is only ever tested for truth, so its [undefined] is
    [false].  The two memoized references are per-instance caches that
    no operation below reads. *)
Record DeltaSnapshot : Type := {
  _apps : Apps;
  _path : option string;
  _data : value;
  _delta : value;
  _newData : value;
  _auth : option AuthMode;
  _childPath : option string;
  _isPrevious : bool
}.

Definition blank (apps : Apps) : DeltaSnapshot :=
  {| _apps := apps; _path := None; _data := VUndef; _delta := VUndef;
     _newData := VUndef; _auth := None; _childPath := None;
     _isPrevious := false |}.

(** The body of the constructor, on the fresh instance. *)
Definition constructor (apps : Apps) (event : option RawEvent)
  : outcome DeltaSnapshot :=
  let this := blank apps in
  match event with
  | None => Returned this
  | Some event =>
      match resource_match (resource event) with
      | None =>
          Thrown (resource_error (resource event))
      | Some (project, _, ref) =>
          if negb (String.eqb project "_") then
            Thrown "Expect project to be '_' in a Firebase Realtime Database event"
          else
            Returned
              {| _apps := apps;
                 _path := Some (normalizePath ref);
                 _auth := Some (auth event);
                 _data := data event;
                 _delta := delta event;
                 _newData := applyChange (data event) (delta event);
                 _childPath := None;
                 _isPrevious := false |}
      end
  end.

(** [_fullPath()] *)
Definition _fullPath (this : DeltaSnapshot) : string :=
  let out := String.append (or_empty (_path this)) (or_empty (_childPath this)) in
  if is_empty out then "/" else out.

(** [key]: [None] is [null]. *)
Definition key (this : DeltaSnapshot) : option string :=
  match last (pathParts (Some (_fullPath this))) with
  | None => None
  | Some l => if is_empty l then None else Some l
  end.

(** The node that [val()] clones: the source tree of the selected view,
    resolved at the offset. *)
Definition source (this : DeltaSnapshot) : value :=
  if _isPrevious this then _data this else _newData this.

Definition resolve (this : DeltaSnapshot) : value :=
  let parts := pathParts (_childPath this) in
  match parts with
  | [] => source this
  | _ => get (source this) parts VNull
  end.

Definition val (this : DeltaSnapshot) : value :=
  _checkAndConvertToArray (cloneDeep (resolve this)).

Definition exists_ (this : DeltaSnapshot) : bool :=
  negb (is_null (val this)).

Definition changed (this : DeltaSnapshot) : bool :=
  negb (is_undefined (valAt (_delta this) (_childPath this))).

Definition hasChildren (this : DeltaSnapshot) : bool :=
  let v := val this in
  isPlainObject v && (0 <? length (keys v))%nat.

Definition numChildren (this : DeltaSnapshot) : nat :=
  let v := val this in
  if isPlainObject v then length (keys v) else 0.

(** The fields of the instance that [_dup(previous, childPath)] builds:
    a fresh instance without event, the six copied fields, then the two
    conditional assignments. *)
Definition dup_fields (this : DeltaSnapshot) (previous : bool)
    (childPath : option string) : DeltaSnapshot :=
  let dup := blank (_apps this) in
  let dup :=
    {| _apps := _apps dup; _isPrevious := _isPrevious dup;
       _path := _path this; _auth := _auth this; _data := _data this;
       _delta := _delta this; _childPath := _childPath this;
       _newData := _newData this |} in
  let dup :=
    if previous then
      {| _apps := _apps dup; _path := _path dup; _data := _data dup;
         _delta := _delta dup; _newData := _newData dup; _auth := _auth dup;
         _childPath := _childPath dup; _isPrevious := true |}
    else dup in
  if truthy childPath then
    {| _apps := _apps dup; _path := _path dup; _data := _data dup;
       _delta := _delta dup; _newData := _newData dup; _auth := _auth dup;
       _childPath := Some (joinPath (_childPath dup) (or_empty childPath));
       _isPrevious := _isPrevious dup |}
  else dup.

(** *** Instances in a heap

    A reference is an index into the list of allocated instances;
    [new] appends.  The navigation methods return a reference, which is
    either the receiver itself or a freshly allocated instance. *)
Definition loc : Type := nat.
Definition heap : Type := list DeltaSnapshot.

Definition alloc (s : DeltaSnapshot) (h : heap) : loc * heap :=
  (length h, h ++ [s]).

(** [new DeltaSnapshot(apps, event)] *)
Definition new_DeltaSnapshot (apps : Apps) (event : option RawEvent) (h : heap)
  : outcome (loc * heap) :=
  match constructor apps event with
  | Returned s => Returned (alloc s h)
  | Thrown m => Thrown m
  end.

(** A method on a reference that the heap does not hold has no
    behaviour ([None]); the lemmas below show that this never happens
    for a receiver that was allocated. *)
Definition _dup (this : loc) (previous : bool) (childPath : option string)
    (h : heap) : option (loc * heap) :=
  match h !! this with
  | None => None
  | Some s => Some (alloc (dup_fields s previous childPath) h)
  end.

Definition child (this : loc) (childPath : option string) (h : heap)
  : option (loc * heap) :=
  match h !! this with
  | None => None
  | Some s =>
      if negb (truthy childPath) then Some (this, h)
      else _dup this (_isPrevious s) childPath h
  end.

Definition previous (this : loc) (h : heap) : option (loc * heap) :=
  match h !! this with
  | None => None
  | Some s => if _isPrevious s then Some (this, h) else _dup this true None h
  end.

Definition current (this : loc) (h : heap) : option (loc * heap) :=
  match h !! this with
  | None => None
  | Some s => if _isPrevious s then _dup this false None h else Some (this, h)
  end.

(** The fields of the instance that [child(childPath)] returns. *)
Definition child_fields (this : DeltaSnapshot) (childPath : option string)
  : DeltaSnapshot :=
  if negb (truthy childPath) then this
  else dup_fields this (_isPrevious this) childPath.

(** The fields of the instances that [previous] and [current] return. *)
Definition previous_fields (this : DeltaSnapshot) : DeltaSnapshot :=
  if _isPrevious this then this else dup_fields this true None.

Definition current_fields (this : DeltaSnapshot) : DeltaSnapshot :=
  if _isPrevious this then dup_fields this false None else this.

(** *** forEach

    The visitor is the caller's code: it receives the reference of the
    child view and runs on the heap and on a state [W] of its own. *)
Definition visitor (W : Type) : Type := loc -> heap -> W -> bool * heap * W.

(** [_.keys(val).forEach(key => action(this.child(key)))]: the value
    that the visitor returns is dropped by [Array.prototype.forEach]. *)
Fixpoint forEach_keys {W : Type} (this : loc) (action : visitor W)
    (ks : list string) (h : heap) (w : W) : option (heap * W) :=
  match ks with
  | [] => Some (h, w)
  | k :: rest =>
      match child this (Some k) h with
      | None => None
      | Some (c, h1) =>
          let '(_, h2, w2) := action c h1 w in
          forEach_keys this action rest h2 w2
      end
  end.

Definition forEach {W : Type} (this : loc) (action : visitor W)
    (h : heap) (w : W) : option (bool * heap * W) :=
  match h !! this with
  | None => None
  | Some s =>
      let v := val s in
      if isPlainObject v then
        match forEach_keys this action (keys v) h w with
        | Some (h', w') => Some (false, h', w')
        | None => None
        end
      else Some (false, h, w)
  end.

(** [hasChild(childPath)] *)
Definition hasChild (this : DeltaSnapshot) (childPath : option string) : bool :=
  exists_ (child_fields this childPath).

End Snapshot.

Arguments RawEvent : clear implicits.
Arguments DeltaSnapshot : clear implicits.
Arguments heap : clear implicits.
Arguments visitor : clear implicits.

(** ** A model of [../utils] *)

Module SpecUtils.

(** Modelled from the spec: [pathParts] of [../utils], "path -> sequence
    of segment", insensitive to "leading/trailing slash variation": the
    non-empty pieces between slashes. *)
Fixpoint segments_from (acc s : string) : list string :=
  match s with
  | EmptyString => if is_empty acc then [] else [acc]
  | String c rest =>
      if is_slash c then
        if is_empty acc then segments_from EmptyString rest
        else acc :: segments_from EmptyString rest
      else segments_from (String.append acc (String c EmptyString)) rest
  end.

(** Modelled from the spec: [pathParts] of [../utils] on an argument
    that may be [undefined], which has no segment. *)
Definition pathParts (p : option string) : list string :=
  match p with
  | None => []
  | Some s => segments_from EmptyString s
  end.

(** Modelled from the spec: the "canonicalPath" that [normalizePath] and
    [joinPath] of [../utils] return, each segment after a slash, the root
    being the empty string (which [_fullPath] turns into a single
    slash). *)
Fixpoint canonical (segs : list string) : string :=
  match segs with
  | [] => EmptyString
  | seg :: rest => String "/" (String.append seg (canonical rest))
  end.

(** Modelled from the spec: [normalizePath] of [../utils], "raw ->
    canonicalPath". *)
Definition normalizePath (p : option string) : string :=
  canonical (pathParts p).

(** Modelled from the spec: [joinPath] of [../utils], which "composes
    two relative-or-absolute fragments into one path usable by
    pathParts". *)
Definition joinPath (a : option string) (b : string) : string :=
  canonical (pathParts a ++ pathParts (Some b)).

(** Modelled from the spec: the descent of [valAt] of [../utils] through
    the keyed mappings of a tree, [undefined] when the path leaves the
    tree. *)
Fixpoint tree_at (t : value) (parts : list string) : value :=
  match parts with
  | [] => t
  | k :: rest =>
      match t with
      | VObj props =>
          match obj_lookup k props with
          | Some v => tree_at v rest
          | None => VUndef
          end
      | _ => VUndef
      end
  end.

(** Modelled from the spec: [valAt] of [../utils], "(tree, path) ->
    value-or-undefined". *)
Definition valAt (t : value) (p : option string) : value :=
  tree_at t (pathParts p).

(** Modelled from the spec: the children that [applyChange] of
    [../utils] finds in a base, none "if base is not itself a mapping". *)
Definition props_of (v : value) : list (string * value) :=
  match v with VObj props => props | _ => [] end.

(** Modelled from the spec: "the corresponding child of base (which may
    be absent)" in [applyChange] of [../utils]. *)
Definition child_or_absent (k : string) (props : list (string * value)) : value :=
  match obj_lookup k props with Some v => v | None => VUndef end.

(** Modelled from the spec: [applyChange] of [../utils] (section 4.1):
    a delta that is not a mapping is the result; a mapping delta is
    applied key by key onto the children of the base (absent when the
    base is not a mapping), the keys of the base that the delta does not
    mention being carried through. *)
Fixpoint applyChange (base delta : value) {struct delta} : value :=
  match delta with
  | VObj dprops =>
      let bprops := props_of base in
      let applied :=
        map (fun kd => match kd with
                       | (k, d) => (k, applyChange (child_or_absent k bprops) d)
                       end) dprops in
      VObj (map (fun kb => (fst kb, match obj_lookup (fst kb) applied with
                                    | Some v => v
                                    | None => snd kb
                                    end)) bprops
            ++ filter (fun kv => negb (obj_has (fst kv) bprops)) applied)
  | _ => delta
  end.

(** Modelled from the spec: the five helpers of [../utils] together. *)
Definition spec_utils : Utils :=
  Build_Utils normalizePath pathParts joinPath valAt applyChange.

End SpecUtils.

(** ** Navigation as data *)

(** The fields that the views of one envelope have in common. *)
Definition same_envelope {Apps AuthMode : Type}
    (s s' : DeltaSnapshot Apps AuthMode) : Prop :=
  _apps s' = _apps s /\ _path s' = _path s /\ _auth s' = _auth s /\
  _data s' = _data s /\ _delta s' = _delta s /\ _newData s' = _newData s.

(** Every instance of [h] is still in [h'], with the same fields. *)
Definition keeps {Apps AuthMode : Type} (h h' : heap Apps AuthMode) : Prop :=
  forall (l : loc) (x : DeltaSnapshot Apps AuthMode),
    h !! l = Some x -> h' !! l = Some x.

(** The three navigation operations. *)
Inductive nav : Type :=
| NavChild (childPath : option string)
| NavPrevious
| NavCurrent.

Definition navigate {Apps AuthMode : Type} {U : Utils}
    (op : nav) (this : loc) (h : heap Apps AuthMode)
  : option (loc * heap Apps AuthMode) :=
  match op with
  | NavChild p => child this p h
  | NavPrevious => previous this h
  | NavCurrent => current this h
  end.

(** The offset and the flag of the view that an operation returns. *)
Definition nav_childPath {U : Utils} (op : nav) (cp : option string) : option string :=
  match op with
  | NavChild p => if truthy p then Some (joinPath cp (or_empty p)) else cp
  | _ => cp
  end.

Definition nav_isPrevious (op : nav) (flag : bool) : bool :=
  match op with
  | NavChild _ => flag
  | NavPrevious => true
  | NavCurrent => false
  end.

(** The fields of the instance that an operation returns. *)
Definition nav_fields {Apps AuthMode : Type} {U : Utils}
    (op : nav) (s : DeltaSnapshot Apps AuthMode) : DeltaSnapshot Apps AuthMode :=
  match op with
  | NavChild p => child_fields s p
  | NavPrevious => previous_fields s
  | NavCurrent => current_fields s
  end.

Fixpoint navigate_all {Apps AuthMode : Type} {U : Utils}
    (ops : list nav) (this : loc) (h : heap Apps AuthMode)
  : option (loc * heap Apps AuthMode) :=
  match ops with
  | [] => Some (this, h)
  | op :: rest =>
      match navigate op this h with
      | Some (r, h') => navigate_all rest r h'
      | None => None
      end
  end.

(** ** A concrete envelope

    The event of the specification's examples: base [{a: 1}], delta
    [{a: 2}], over the model of [../utils]; the collaborators [Apps] and
    [AuthMode] are instantiated by [unit]. *)

Definition example_event : RawEvent unit :=
  {| resource := "projects/_/instances/db/refs/users";
     auth := tt;
     data := VObj [("a", VNum 1)];
     delta := VObj [("a", VNum 2)] |}.

Definition example_root : DeltaSnapshot unit unit :=
  {| _apps := tt;
     _path := Some "/users";
     _data := VObj [("a", VNum 1)];
     _delta := VObj [("a", VNum 2)];
     _newData := VObj [("a", VNum 2)];
     _auth := Some tt;
     _childPath := None;
     _isPrevious := false |}.

(** A tree whose root is the mapping [{"0": "a", "1": "b"}]. *)
Definition example_list_root : DeltaSnapshot unit unit :=
  {| _apps := tt;
     _path := Some "/list";
     _data := VObj [("0", VStr "a"); ("1", VStr "b")];
     _delta := VUndef;
     _newData := VObj [("0", VStr "a"); ("1", VStr "b")];
     _auth := Some tt;
     _childPath := None;
     _isPrevious := false |}.

(** A tree that holds an empty mapping under the key [a]. *)
Definition example_empty_root : DeltaSnapshot unit unit :=
  {| _apps := tt;
     _path := Some "/users";
     _data := VObj [("a", VObj [])];
     _delta := VUndef;
     _newData := VObj [("a", VObj [])];
     _auth := Some tt;
     _childPath := Some "/a";
     _isPrevious := false |}.

(** ** Observing a visitor

    [logged action] behaves as [action] and records, call after call, the
    instance it was handed. *)
Definition logged {Apps AuthMode W : Type} (action : visitor Apps AuthMode W)
  : visitor Apps AuthMode (W * list (option (DeltaSnapshot Apps AuthMode))) :=
  fun c h st =>
    let '(w, log) := st in
    let '(b, h', w') := action c h w in
    (b, h', (w', log ++ [h !! c])).
Arguments logged : simpl never.

(** A visitor cannot reach the private fields of an instance: whatever it
    does to the heap, the instances that were there stay as they were. *)
Definition visitor_keeps {Apps AuthMode W : Type}
    (action : visitor Apps AuthMode W) : Prop :=
  forall (c : loc) (h : heap Apps AuthMode) (w : W),
    keeps h (snd (fst (action c h w))).

(** A visitor that counts its calls and answers [true] each time. *)
Definition counting_visitor : visitor unit unit nat :=
  fun _ h n => (true, h, S n).

(** Two resource strings around a well-formed one. *)
Definition event_with_resource (r : string) : RawEvent unit :=
  {| resource := r; auth := tt; data := VObj [("a", VNum 1)]; delta := VObj [("a", VNum 2)] |}.

Definition resource_with_prefix : string := "xprojects/_/instances/db/refs/users".
Definition resource_with_suffix : string := "projects/_/instances/db/refsusers".

(** A tree with a string leaf under the key [a], unchanged by the event. *)
Definition example_string_root : DeltaSnapshot unit unit :=
  {| _apps := tt;
     _path := Some "/users";
     _data := VObj [("a", VStr "hello")];
     _delta := VObj [];
     _newData := VObj [("a", VStr "hello")];
     _auth := Some tt;
     _childPath := None;
     _isPrevious := false |}.

(** ** Describing the normalizer *)

Definition all_integer_keys (ks : list string) : bool :=
  forallb integerRegExp_test ks.

(** The largest value among keys, 0 when there is none. *)
Definition max_key (ks : list string) : N :=
  fold_left N.max (map Number ks) 0%N.

(** [fresh_last k seen]: [k] is none of [seen] and goes before none of
    them in property order. *)
Definition fresh_last (k : string) (seen : list string) : bool :=
  forallb (fun k' => negb (String.eqb k k') && negb (goes_before k k')) seen.

(** The key lists that are the own keys of a plain object, in property
    order: no key twice, the array indices first and ascending.  The key
    [__proto__] is set apart (see [obj_set]). *)
Fixpoint own_key_order (seen ks : list string) : bool :=
  match ks with
  | [] => true
  | k :: rest =>
      negb (String.eqb k "__proto__") && fresh_last k seen
      && own_key_order (seen ++ [k]) rest
  end.

Definition js_object (props : list (string * value)) : bool :=
  own_key_order [] (map fst props).

(** An object that [_.forEach] iterates like an array. *)
Definition array_like (props : list (string * value)) : bool :=
  match isLength (obj_lookup "length" props) with
  | Some _ => true
  | None => false
  end.

(** The children of a mapping, each normalized. *)
Definition normalized_children (props : list (string * value))
  : list (string * value) :=
  map (fun kv => (fst kv, _checkAndConvertToArray (snd kv))) props.

(** The sequence whose slot [i], up to the largest key, holds what the
    mapping has under the decimal writing of [i], a hole otherwise. *)
Definition sequence_of (kids : list (string * value)) : list (option value) :=
  map (fun i => obj_lookup (String_of_index i) kids)
      (indices (max_key (map fst kids) + 1)).

(** The length that the assignments of [ks] give to an empty array. *)
Definition assigned_length (ks : list string) : nat :=
  fold_right (fun k acc => Nat.max (S (N.to_nat (Number k))) acc) 0 ks.

(** A mapping with a child named [length]. *)
Definition example_box : list (string * value) :=
  [("length", VNum 2); ("width", VNum 3)].

(** ** Sequences of navigation steps *)

(** The fields of the instance reached by a sequence of operations. *)
Definition nav_fields_all {Apps AuthMode : Type} {U : Utils}
    (ops : list nav) (s : DeltaSnapshot Apps AuthMode) : DeltaSnapshot Apps AuthMode :=
  fold_left (fun s op => nav_fields op s) ops s.

(** ** Building resources

    [ref(ref)] and [RefBuilder]: the resource of a trigger is a template
    over the environment variable [DB_NAMESPACE] and the normalized
    reference; [apps()] is the collaborator handed to the builder. *)

(** The text that a template literal gives to a placeholder. *)
Definition template_text (v : option string) : string :=
  match v with Some s => s | None => "undefined" end.

Record RefBuilder (Apps : Type) : Type := {
  rb_apps : Apps;
  rb_resource : string
}.
Arguments rb_apps {Apps} r.
Arguments rb_resource {Apps} r.

(** [ref(ref)] *)
Definition ref {Apps : Type} {U : Utils}
    (apps : Apps) (DB_NAMESPACE : option string) (ref : string) : RefBuilder Apps :=
  let normalized := normalizePath (Some ref) in
  {| rb_apps := apps;
     rb_resource :=
       String.append "projects/_/instances/"
         (String.append (template_text DB_NAMESPACE)
            (String.append "/refs/" normalized)) |}.

(** The [dataConstructor] that [onWrite] registers:
    [(raw) => new DeltaSnapshot(this.apps, raw)]. *)
Definition dataConstructor {Apps AuthMode : Type} {U : Utils}
    (builder : RefBuilder Apps) (raw : RawEvent AuthMode) (h : heap Apps AuthMode)
  : outcome (loc * heap Apps AuthMode) :=
  new_DeltaSnapshot (rb_apps builder) (Some raw) h.

(** A resource written out from its parts. *)
Definition resource_of (project instance tail : string) : string :=
  String.append "projects/"
    (String.append project
       (String.append "/instances/"
          (String.append instance (String.append "/refs" tail)))).

(** No character of [s] satisfies [stop]. *)
Fixpoint free_of (stop : ascii -> bool) (s : string) : bool :=
  match s with
  | EmptyString => true
  | String c rest => negb (stop c) && free_of stop rest
  end.

(** [needle] occurs in [s]. *)
Fixpoint occurs (needle s : string) : bool :=
  match strip_prefix needle s with
  | Some _ => true
  | None =>
      match s with
      | EmptyString => false
      | String _ rest => occurs needle rest
      end
  end.

Definition event_on (r : string) : RawEvent unit :=
  {| resource := r; auth := tt; data := VNull; delta := VNull |}.

(** ** Shapes of normalized values *)

Definition is_nil {A : Type} (l : list A) : bool :=
  match l with [] => true | _ => false end.




(** ** Index-keyed mappings *)

(** The values [vs] keyed by the decimal writings of [a], [a + 1], ... *)
Fixpoint indexed (a : nat) (vs : list value) : list (string * value) :=
  match vs with
  | [] => []
  | v :: rest => (String_of_index (N.of_nat a), v) :: indexed (S a) rest
  end.

Definition index_keys (a m : nat) : list string :=
  map (fun i => String_of_index (N.of_nat i)) (seq a m).

(** What the first loop reads from a slot, and then stores. *)
Definition slot_value (e : option value) : value :=
  match e with Some v => v | None => VUndef end.

(** The normalized child under [k], [null] when there is none. *)
Definition normalized_child (k : string) (props : list (string * value)) : value :=
  match obj_lookup k props with
  | Some c => _checkAndConvertToArray c
  | None => VNull
  end.

(** ** Reading inside a node *)

(** What [val()] resolves when the offset has the segments [parts]:
    the node itself without segment, [_.get(node, parts, null)]
    otherwise. *)
Definition read_at (node : value) (parts : list string) : value :=
  match parts with
  | [] => node
  | _ :: _ => get node parts VNull
  end.

(** ** The memoized references

    The getters [ref] and [adminRef] keep what the database handed out
    in two fields of the instance, which [_dup] does not copy.  The
    database is a collaborator: [forMode_ref apps auth path] stands for
    [apps.forMode(auth).database().ref(path)] and [admin_ref apps path]
    for [apps.admin.database().ref(path)]; each call is logged. *)

Inductive db_call : Type :=
| UserRefCall (path : string)
| AdminRefCall (path : string).

Section References.

Context {Apps AuthMode Reference : Type}.
Context `{U : Utils}.
Variable forMode_ref : Apps -> option AuthMode -> string -> Reference.
Variable admin_ref : Apps -> string -> Reference.

(** An instance with its two cache fields ([None] is [undefined]; a
    reference is an object, hence truthy). *)
Record Instance : Type := {
  inst_fields : DeltaSnapshot Apps AuthMode;
  _ref : option Reference;
  _adminRef : option Reference
}.

Definition fresh_instance (s : DeltaSnapshot Apps AuthMode) : Instance :=
  {| inst_fields := s; _ref := None; _adminRef := None |}.

(** [get ref()] *)
Definition get_ref (this : Instance) (log : list db_call)
  : Reference * Instance * list db_call :=
  match _ref this with
  | Some r => (r, this, log)
  | None =>
      let s := inst_fields this in
      let r := forMode_ref (_apps s) (_auth s) (_fullPath s) in
      (r, {| inst_fields := s; _ref := Some r; _adminRef := _adminRef this |},
       log ++ [UserRefCall (_fullPath s)])
  end.

(** [get adminRef()] *)
Definition get_adminRef (this : Instance) (log : list db_call)
  : Reference * Instance * list db_call :=
  match _adminRef this with
  | Some r => (r, this, log)
  | None =>
      let s := inst_fields this in
      let r := admin_ref (_apps s) (_fullPath s) in
      (r, {| inst_fields := s; _ref := _ref this; _adminRef := Some r |},
       log ++ [AdminRefCall (_fullPath s)])
  end.

(** A run of accesses: [true] reads [ref], [false] reads [adminRef];
    the references read are collected in order. *)
Fixpoint read_references (which : list bool) (this : Instance) (log : list db_call)
  : list Reference * Instance * list db_call :=
  match which with
  | [] => ([], this, log)
  | w :: rest =>
      let '(r, this', log') :=
        if w then get_ref this log else get_adminRef this log in
      let '(rs, this'', log'') := read_references rest this' log' in
      (r :: rs, this'', log'')
  end.

End References.

Arguments Instance : clear implicits.

(** The instance of [s] whose caches are filled or not, and the calls
    that a run of accesses makes from such a state. *)
Definition cached_instance {Apps AuthMode Reference : Type}
    (s : DeltaSnapshot Apps AuthMode) (r a : Reference) (has_ref has_admin : bool)
  : Instance Apps AuthMode Reference :=
  {| inst_fields := s;
     _ref := if has_ref then Some r else None;
     _adminRef := if has_admin then Some a else None |}.

Fixpoint calls_from (path : string) (has_ref has_admin : bool) (which : list bool)
  : list db_call :=
  match which with
  | [] => []
  | true :: rest =>
      (if has_ref then [] else [UserRefCall path]) ++ calls_from path true has_admin rest
  | false :: rest =>
      (if has_admin then [] else [AdminRefCall path]) ++ calls_from path has_ref true rest
  end.

(** ** Induction on values *)

Section ValueInduction.

Variable P : value -> Prop.
Hypothesis P_undefined : P VUndef.
Hypothesis P_null : P VNull.
Hypothesis P_bool : forall b : bool, P (VBool b).
Hypothesis P_num : forall n : Z, P (VNum n).
Hypothesis P_str : forall s : string, P (VStr s).
Hypothesis P_obj :
  forall props : list (string * value),
    Forall (fun kv => P (snd kv)) props -> P (VObj props).
Hypothesis P_arr :
  forall elems : list (option value),
    Forall (fun e => match e with Some c => P c | None => True end) elems ->
    P (VArr elems).

Fixpoint value_induction (v : value) : P v :=
  match v with
  | VUndef => P_undefined
  | VNull => P_null
  | VBool b => P_bool b
  | VNum n => P_num n
  | VStr s => P_str s
  | VObj props =>
      P_obj props
        ((fix go (l : list (string * value)) : Forall (fun kv => P (snd kv)) l :=
            match l with
            | [] => @List.Forall_nil _ _
            | kv :: rest =>
                @List.Forall_cons _ _ kv rest
                  (match kv return P (snd kv) with (_, c) => value_induction c end)
                  (go rest)
            end) props)
  | VArr elems =>
      P_arr elems
        ((fix go (l : list (option value))
            : Forall (fun e => match e with Some c => P c | None => True end) l :=
            match l with
            | [] => @List.Forall_nil _ _
            | e :: rest =>
                @List.Forall_cons _ _ e rest
                  (match e return match e with Some c => P c | None => True end with
                   | Some c => value_induction c
                   | None => I
                   end)
                  (go rest)
            end) elems)
  end.

End ValueInduction.

(** Two events on the same base and offset as [example_root]: one with
    another delta and derived tree, one with another base and delta
    that derive the same tree. *)
Definition example_root_other : DeltaSnapshot unit unit :=
  {| _apps := tt;
     _path := Some "/users";
     _data := VObj [("a", VNum 1)];
     _delta := VObj [("a", VNull); ("b", VStr "new")];
     _newData := VObj [("a", VNull); ("b", VStr "new")];
     _auth := Some tt;
     _childPath := None;
     _isPrevious := false |}.

Definition example_root_again : DeltaSnapshot unit unit :=
  {| _apps := tt;
     _path := Some "/users";
     _data := VObj [("a", VNum 2)];
     _delta := VObj [];
     _newData := VObj [("a", VNum 2)];
     _auth := Some tt;
     _childPath := None;
     _isPrevious := true |}.

(** ** Two readings of the path helpers *)

Module SlashlessUtils.

(** Modelled from the spec: the "canonicalPath" of [../utils] read as
    the segments separated by single slashes, with no slash at either
    end (the reading under which the template of [ref],
    [refs/${normalized}], has single slashes). *)
Fixpoint joined (segs : list string) : string :=
  match segs with
  | [] => EmptyString
  | seg :: rest =>
      match rest with
      | [] => seg
      | _ :: _ => String.append seg (String "/" (joined rest))
      end
  end.

(** Modelled from the spec: [normalizePath] of [../utils], "raw ->
    canonicalPath", in this reading. *)
Definition normalizePath (p : option string) : string :=
  joined (SpecUtils.pathParts p).

(** Modelled from the spec: [joinPath] of [../utils], which "composes
    two relative-or-absolute fragments into one path usable by
    pathParts", in this reading. *)
Definition joinPath (a : option string) (b : string) : string :=
  joined (SpecUtils.pathParts a ++ SpecUtils.pathParts (Some b)).


End SlashlessUtils.





(** * Properties *)

(** ** Decimal keys *)

Lemma all_digits_string_of_uint (d : uint) :
  all_digits (NilEmpty.string_of_uint d) = true.
Proof. induction d; simpl; try rewrite IHd; reflexivity. Qed.

Lemma all_digits_parse (s : string) :
  all_digits s = true -> exists d : uint, NilEmpty.uint_of_string s = Some d.
Proof.
  induction s as [ | c s IH]; simpl.
  - intros _. exists Nil. reflexivity.
  - intros H. apply andb_true_iff in H. destruct H as [Hc Hs].
    destruct (IH Hs) as [d ->].
    destruct c as [[|] [|] [|] [|] [|] [|] [|] [|]]; try discriminate Hc;
      simpl; eexists; reflexivity.
Qed.

Lemma integerRegExp_parse (k : string) :
  integerRegExp_test k = true ->
  exists d : uint, NilEmpty.uint_of_string k = Some d /\ unorm d = d.
Proof.
  destruct k as [ | c rest]; [discriminate|].
  unfold integerRegExp_test.
  destruct (Ascii.eqb c "0") eqn:H0.
  - apply Ascii.eqb_eq in H0. subst c.
    destruct rest; [|discriminate]. intros _. exists (D0 Nil). split; reflexivity.
  - intros H. apply andb_true_iff in H. destruct H as [Hc Hs].
    destruct (all_digits_parse rest Hs) as [d Hd].
    cbn [NilEmpty.uint_of_string]. rewrite Hd.
    destruct c as [[|] [|] [|] [|] [|] [|] [|] [|]]; try discriminate Hc;
      try discriminate H0; simpl; eexists; split; reflexivity.
Qed.

(** A key that passes the test is the decimal writing of its value. *)
Lemma String_of_Number (k : string) :
  integerRegExp_test k = true -> String_of_index (Number k) = k.
Proof.
  intros Hk. destruct (integerRegExp_parse k Hk) as (d & Hd & Hn).
  unfold String_of_index, Number. rewrite Hd.
  rewrite DecimalN.Unsigned.to_of, Hn.
  apply NilEmpty.sus. exact Hd.
Qed.

Lemma Number_of_String (i : N) : Number (String_of_index i) = i.
Proof.
  unfold Number, String_of_index.
  rewrite NilEmpty.usu. apply DecimalN.Unsigned.of_to.
Qed.

Lemma nzhead_shape (d : uint) :
  nzhead d = Nil \/
  integerRegExp_test (NilEmpty.string_of_uint (nzhead d)) = true.
Proof.
  induction d; simpl; auto; right;
    rewrite all_digits_string_of_uint; reflexivity.
Qed.

Lemma integerRegExp_String_of_index (i : N) :
  integerRegExp_test (String_of_index i) = true.
Proof.
  unfold String_of_index.
  rewrite <- (DecimalN.Unsigned.of_to i) at 1.
  rewrite DecimalN.Unsigned.to_of. unfold unorm.
  destruct (nzhead_shape (N.to_uint i)) as [-> | H]; [reflexivity|].
  destruct (nzhead (N.to_uint i)); try exact H. reflexivity.
Qed.

(** Two keys that pass the test and have the same value are the same. *)
Lemma Number_inj (k k' : string) :
  integerRegExp_test k = true -> integerRegExp_test k' = true ->
  Number k = Number k' -> k = k'.
Proof.
  intros Hk Hk' Heq.
  rewrite <- (String_of_Number k Hk), <- (String_of_Number k' Hk'), Heq.
  reflexivity.
Qed.

(** ** The normalizer on the examples of the specification *)

Example convert_dense :
  _checkAndConvertToArray (VObj [("0", VStr "a"); ("1", VStr "b"); ("2", VStr "c")])
  = VArr [Some (VStr "a"); Some (VStr "b"); Some (VStr "c")].
Proof. vm_compute. reflexivity. Qed.

Example convert_sparse :
  _checkAndConvertToArray (VObj [("0", VStr "a"); ("1000", VStr "b")])
  = VObj [("0", VStr "a"); ("1000", VStr "b")].
Proof. vm_compute. reflexivity. Qed.

Example convert_mixed :
  _checkAndConvertToArray (VObj [("0", VStr "a"); ("x", VStr "b")])
  = VObj [("0", VStr "a"); ("x", VStr "b")].
Proof. vm_compute. reflexivity. Qed.

Example convert_length :
  _checkAndConvertToArray (VObj [("length", VNum 2); ("width", VNum 3)])
  = VArr [Some VNull; Some VNull].
Proof. vm_compute. reflexivity. Qed.

Lemma convert_absent :
  _checkAndConvertToArray VNull = VNull /\ _checkAndConvertToArray VUndef = VNull.
Proof. split; reflexivity. Qed.

Lemma convert_scalar (node : value) :
  match node with VBool _ | VNum _ | VStr _ => True | _ => False end ->
  _checkAndConvertToArray node = node.
Proof. destruct node; simpl; intros H; try reflexivity; destruct H. Qed.

(** ** Navigation on the heap *)

Lemma keeps_refl {Apps AuthMode : Type} (h : heap Apps AuthMode) : keeps h h.
Proof. intros l x Hl; exact Hl. Qed.

Lemma keeps_trans {Apps AuthMode : Type} (h1 h2 h3 : heap Apps AuthMode) :
  keeps h1 h2 -> keeps h2 h3 -> keeps h1 h3.
Proof. intros H12 H23 l x Hl. apply H23, H12, Hl. Qed.

Lemma alloc_keeps {Apps AuthMode : Type}
    (d : DeltaSnapshot Apps AuthMode) (h : heap Apps AuthMode) :
  keeps h (snd (alloc d h)).
Proof. intros l x Hl. simpl. apply lookup_app_l_Some, Hl. Qed.

Lemma alloc_lookup {Apps AuthMode : Type}
    (d : DeltaSnapshot Apps AuthMode) (h : heap Apps AuthMode) :
  snd (alloc d h) !! fst (alloc d h) = Some d.
Proof. simpl. apply list_lookup_middle. reflexivity. Qed.

Lemma same_envelope_refl {Apps AuthMode : Type} (s : DeltaSnapshot Apps AuthMode) :
  same_envelope s s.
Proof. repeat split. Qed.

Lemma same_envelope_trans {Apps AuthMode : Type}
    (s1 s2 s3 : DeltaSnapshot Apps AuthMode) :
  same_envelope s1 s2 -> same_envelope s2 s3 -> same_envelope s1 s3.
Proof.
  unfold same_envelope.
  intros (A1 & A2 & A3 & A4 & A5 & A6) (B1 & B2 & B3 & B4 & B5 & B6).
  repeat split; congruence.
Qed.

Lemma dup_fields_same_envelope {Apps AuthMode : Type} {U : Utils}
    (s : DeltaSnapshot Apps AuthMode) (flag : bool) (p : option string) :
  same_envelope s (dup_fields s flag p).
Proof.
  unfold dup_fields.
  destruct flag, (truthy p); repeat split.
Qed.

Lemma dup_fields_childPath {Apps AuthMode : Type} {U : Utils}
    (s : DeltaSnapshot Apps AuthMode) (flag : bool) (p : option string) :
  _childPath (dup_fields s flag p)
  = if truthy p then Some (joinPath (_childPath s) (or_empty p)) else _childPath s.
Proof. unfold dup_fields. destruct flag, (truthy p); reflexivity. Qed.

Lemma dup_fields_isPrevious {Apps AuthMode : Type} {U : Utils}
    (s : DeltaSnapshot Apps AuthMode) (flag : bool) (p : option string) :
  _isPrevious (dup_fields s flag p) = flag.
Proof. unfold dup_fields. destruct flag, (truthy p); reflexivity. Qed.

(** What one navigation step does, for a receiver that the heap holds. *)
Lemma navigate_step {Apps AuthMode : Type} {U : Utils}
    (op : nav) (this : loc) (h : heap Apps AuthMode)
    (s : DeltaSnapshot Apps AuthMode) :
  h !! this = Some s ->
  exists (r : loc) (h' : heap Apps AuthMode) (s' : DeltaSnapshot Apps AuthMode),
    navigate op this h = Some (r, h') /\
    keeps h h' /\
    h' !! r = Some s' /\
    same_envelope s s' /\
    _childPath s' = nav_childPath op (_childPath s) /\
    _isPrevious s' = nav_isPrevious op (_isPrevious s).
Proof.
  intros Hs.
  destruct op as [p | | ]; simpl; unfold child, previous, current, _dup; rewrite Hs.
  - destruct (truthy p) eqn:Hp; simpl.
    + eexists _, _, _. split; [reflexivity|].
      split; [apply alloc_keeps|]. split; [apply alloc_lookup|].
      split; [apply dup_fields_same_envelope|].
      rewrite dup_fields_childPath, dup_fields_isPrevious, Hp. split; reflexivity.
    + exists this, h, s. repeat split; try assumption. apply keeps_refl.
  - destruct (_isPrevious s) eqn:Hf.
    + exists this, h, s. repeat split; try assumption. apply keeps_refl.
    + eexists _, _, _. split; [reflexivity|].
      split; [apply alloc_keeps|]. split; [apply alloc_lookup|].
      split; [apply dup_fields_same_envelope|].
      rewrite dup_fields_childPath, dup_fields_isPrevious. split; reflexivity.
  - destruct (_isPrevious s) eqn:Hf.
    + eexists _, _, _. split; [reflexivity|].
      split; [apply alloc_keeps|]. split; [apply alloc_lookup|].
      split; [apply dup_fields_same_envelope|].
      rewrite dup_fields_childPath, dup_fields_isPrevious. split; reflexivity.
    + exists this, h, s. repeat split; try assumption. apply keeps_refl.
Qed.

Example example_root_constructed :
  constructor (U := SpecUtils.spec_utils) tt (Some example_event)
  = Returned example_root.
Proof. vm_compute. reflexivity. Qed.

(** C5.  [child(p)], [previous] and [current] leave every field of every
    allocated instance, the receiver included, as it was; the instance
    they return has the receiver's [_apps], [_path], [_auth], [_data],
    [_delta] and [_newData]; its offset is the receiver's, with [p] joined
    onto it by a [child(p)] whose [p] is not empty; its flag is the
    receiver's after [child], set after [previous], unset after
    [current].  In particular [previous] and [current] keep the offset. *)
Theorem navigation_frame {Apps AuthMode : Type} {U : Utils}
    (op : nav) (this : loc) (h : heap Apps AuthMode)
    (s : DeltaSnapshot Apps AuthMode) :
  h !! this = Some s ->
  exists (r : loc) (h' : heap Apps AuthMode) (s' : DeltaSnapshot Apps AuthMode),
    navigate op this h = Some (r, h') /\
    keeps h h' /\
    h' !! this = Some s /\
    h' !! r = Some s' /\
    same_envelope s s' /\
    _childPath s' = nav_childPath op (_childPath s) /\
    _isPrevious s' = nav_isPrevious op (_isPrevious s) /\
    ((op = NavPrevious \/ op = NavCurrent) -> _childPath s' = _childPath s).
Proof.
  intros Hs.
  destruct (navigate_step op this h s Hs) as (r & h' & s' & Hn & Hk & Hr & He & Hc & Hf).
  exists r, h', s'.
  repeat (split; [assumption|]).
  split; [apply Hk, Hs|].
  repeat (split; [assumption|]).
  intros [-> | ->]; exact Hc.
Qed.

Lemma navigation_frame_witness :
  exists (r : loc) (h' : heap unit unit) (s' : DeltaSnapshot unit unit),
    navigate (U := SpecUtils.spec_utils) NavPrevious 0 [example_root] = Some (r, h') /\
    keeps [example_root] h' /\
    h' !! 0 = Some example_root /\
    h' !! r = Some s' /\
    same_envelope example_root s' /\
    _childPath s' = nav_childPath (U := SpecUtils.spec_utils) NavPrevious (_childPath example_root) /\
    _isPrevious s' = nav_isPrevious NavPrevious (_isPrevious example_root) /\
    ((NavPrevious = NavPrevious \/ NavPrevious = NavCurrent) ->
     _childPath s' = _childPath example_root).
Proof.
  apply (navigation_frame (U := SpecUtils.spec_utils) NavPrevious 0 [example_root] example_root).
  reflexivity.
Defined.

Lemma constructor_fields {Apps AuthMode : Type} {U : Utils}
    (apps : Apps) (ev : RawEvent AuthMode) (s : DeltaSnapshot Apps AuthMode) :
  constructor apps (Some ev) = Returned s ->
  _data s = data ev /\ _delta s = delta ev /\
  _newData s = applyChange (data ev) (delta ev) /\
  _auth s = Some (auth ev) /\ _childPath s = None /\ _isPrevious s = false.
Proof.
  unfold constructor.
  destruct (resource_match (resource ev)) as [[[project instance] r] | ]; [|discriminate].
  destruct (negb (String.eqb project "_")); [discriminate|].
  intros [= <-]. repeat split.
Qed.

Lemma navigate_all_envelope {Apps AuthMode : Type} {U : Utils}
    (ops : list nav) (this : loc) (h : heap Apps AuthMode)
    (s : DeltaSnapshot Apps AuthMode) :
  h !! this = Some s ->
  exists (r : loc) (h' : heap Apps AuthMode) (s' : DeltaSnapshot Apps AuthMode),
    navigate_all ops this h = Some (r, h') /\
    keeps h h' /\ h' !! r = Some s' /\ same_envelope s s'.
Proof.
  revert this h s.
  induction ops as [ | op ops IH]; intros this h s Hs.
  - exists this, h, s. simpl. repeat split; try assumption. apply keeps_refl.
  - destruct (navigate_step op this h s Hs) as (r1 & h1 & s1 & Hn & Hk & Hr & He & _).
    destruct (IH r1 h1 s1 Hr) as (r & h' & s' & Hn' & Hk' & Hr' & He').
    exists r, h', s'. simpl. rewrite Hn.
    split; [exact Hn'|]. split; [eapply keeps_trans; eassumption|].
    split; [exact Hr'|]. eapply same_envelope_trans; eassumption.
Qed.

(** C2.  After [new DeltaSnapshot(apps, event)] has returned, whatever
    sequence of [child] / [previous] / [current] is followed from the new
    instance, the view reached holds in [_newData] the tree
    [applyChange(event.data.data, event.data.delta)] that the constructor
    stored, which is also the [_newData] still held by the constructed
    instance; [_data] and [_delta] are the event's. *)
Theorem derived_tree_frozen {Apps AuthMode : Type} {U : Utils}
    (apps : Apps) (ev : RawEvent AuthMode) (h0 h1 : heap Apps AuthMode)
    (r0 : loc) (ops : list nav) :
  new_DeltaSnapshot apps (Some ev) h0 = Returned (r0, h1) ->
  exists (r : loc) (h : heap Apps AuthMode) (s0 s : DeltaSnapshot Apps AuthMode),
    navigate_all ops r0 h1 = Some (r, h) /\
    h !! r0 = Some s0 /\ h !! r = Some s /\
    _newData s = applyChange (data ev) (delta ev) /\
    _newData s = _newData s0 /\
    _data s = data ev /\ _delta s = delta ev.
Proof.
  unfold new_DeltaSnapshot.
  destruct (constructor apps (Some ev)) as [s0 | m] eqn:Hc; [|discriminate].
  intros [= <- <-].
  destruct (constructor_fields apps ev s0 Hc) as (Hd & Hdl & Hn & _).
  pose proof (alloc_lookup s0 h0) as H0. simpl in H0.
  destruct (navigate_all_envelope ops (length h0) (h0 ++ [s0]) s0 H0)
    as (r & h & s & Hnav & Hk & Hr & (_ & _ & _ & E1 & E2 & E3)).
  exists r, h, s0, s.
  split; [exact Hnav|]. split; [apply Hk, H0|]. split; [exact Hr|].
  repeat split; congruence.
Qed.

Lemma derived_tree_frozen_witness :
  exists (r : loc) (h : heap unit unit) (s0 s : DeltaSnapshot unit unit),
    navigate_all (U := SpecUtils.spec_utils)
      [NavChild (Some "a"); NavPrevious; NavCurrent] 0 [example_root] = Some (r, h) /\
    h !! 0 = Some s0 /\ h !! r = Some s /\
    _newData s = applyChange (Utils := SpecUtils.spec_utils)
                   (data example_event) (delta example_event) /\
    _newData s = _newData s0 /\
    _data s = data example_event /\ _delta s = delta example_event.
Proof.
  apply (derived_tree_frozen (U := SpecUtils.spec_utils) tt example_event [] [example_root] 0).
  reflexivity.
Defined.

(** The instance returned by a navigation step has the fields computed by
    [nav_fields]. *)
Lemma navigate_result {Apps AuthMode : Type} {U : Utils}
    (op : nav) (this : loc) (h : heap Apps AuthMode)
    (s : DeltaSnapshot Apps AuthMode) :
  h !! this = Some s ->
  exists (r : loc) (h' : heap Apps AuthMode),
    navigate op this h = Some (r, h') /\ keeps h h' /\
    h' !! r = Some (nav_fields op s).
Proof.
  intros Hs.
  destruct op as [p | | ]; simpl;
    unfold child, previous, current, _dup, child_fields, previous_fields, current_fields;
    rewrite Hs.
  - destruct (truthy p); simpl.
    + eexists _, _. split; [reflexivity|]. split; [apply alloc_keeps|apply alloc_lookup].
    + exists this, h. repeat split; try assumption. apply keeps_refl.
  - destruct (_isPrevious s).
    + exists this, h. repeat split; try assumption. apply keeps_refl.
    + eexists _, _. split; [reflexivity|]. split; [apply alloc_keeps|apply alloc_lookup].
  - destruct (_isPrevious s).
    + eexists _, _. split; [reflexivity|]. split; [apply alloc_keeps|apply alloc_lookup].
    + exists this, h. repeat split; try assumption. apply keeps_refl.
Qed.

(** ** Change detection *)

Lemma changed_dup_fields {Apps AuthMode : Type} {U : Utils}
    (s : DeltaSnapshot Apps AuthMode) (flag : bool) :
  changed (dup_fields s flag None) = changed s.
Proof. unfold changed, dup_fields. destruct flag; reflexivity. Qed.

(** C3.  [changed()] is true exactly when [valAt] finds something other
    than [undefined] in the delta tree at the offset; the views returned
    by [previous] and by [current] answer alike, and like the receiver.
    On base [{a: 1}] and delta [{a: 2}], both views answer true at child
    path [a] and false at the untouched sibling [b]. *)
Theorem changed_ignores_view :
  (forall (Apps AuthMode : Type) (U : Utils) (s : DeltaSnapshot Apps AuthMode),
      (changed s = true <-> valAt (_delta s) (_childPath s) <> VUndef) /\
      changed (previous_fields s) = changed (current_fields s) /\
      changed (previous_fields s) = changed s) /\
  (let U := SpecUtils.spec_utils in
   let at_a := child_fields example_root (Some "a") in
   let at_b := child_fields example_root (Some "b") in
   changed (previous_fields at_a) = true /\ changed (current_fields at_a) = true /\
   changed (previous_fields at_b) = false /\ changed (current_fields at_b) = false).
Proof.
  split.
  - intros Apps AuthMode U s. split; [|split].
    + unfold changed.
      destruct (valAt (_delta s) (_childPath s)); simpl; split;
        try discriminate; try congruence; intros _; reflexivity.
    + unfold previous_fields, current_fields.
      destruct (_isPrevious s); rewrite changed_dup_fields; reflexivity.
    + unfold previous_fields.
      destruct (_isPrevious s); [reflexivity|apply changed_dup_fields].
  - vm_compute. repeat split.
Qed.

(** ** Counting children *)

(** C7.  [hasChildren()] is true exactly when [val()] is a plain object
    with at least one key; [numChildren()] is the number of keys of
    [val()] when it is a plain object and 0 when it is not; when [val()]
    is an array both answer as for a childless node, as on the tree
    [{"0": "a", "1": "b"}] whose [val()] is the two-element array. *)
Theorem children_count_plain_objects_only :
  (forall (Apps AuthMode : Type) (U : Utils) (s : DeltaSnapshot Apps AuthMode),
      (hasChildren s = true <->
         exists props : list (string * value), val s = VObj props /\ props <> []) /\
      (forall props : list (string * value),
          val s = VObj props -> numChildren s = length props) /\
      ((forall props : list (string * value), val s <> VObj props) ->
         numChildren s = 0) /\
      (forall elems : list (option value),
          val s = VArr elems -> hasChildren s = false /\ numChildren s = 0)) /\
  (let U := SpecUtils.spec_utils in
   val example_list_root = VArr [Some (VStr "a"); Some (VStr "b")] /\
   hasChildren example_list_root = false /\ numChildren example_list_root = 0).
Proof.
  split.
  - intros Apps AuthMode U s. unfold hasChildren, numChildren.
    destruct (val s) as [ | | b | n | str | props | elems]; simpl;
      (split; [|split; [|split]]);
      try (split; [discriminate | intros (props' & Hv & _); discriminate]);
      try (intros props' Hv; discriminate);
      try (intros _; reflexivity);
      try (intros elems' _; split; reflexivity).
    + destruct props as [ | kv props]; simpl; split.
      * discriminate.
      * intros (props' & [= <-] & Hne). congruence.
      * intros _. eexists. split; [reflexivity|discriminate].
      * intros _. reflexivity.
    + intros props' [= <-]. rewrite length_map. reflexivity.
    + intros Hno. exfalso. eapply Hno. reflexivity.
  - vm_compute. repeat split.
Qed.

(** ** The empty mapping *)

Lemma convert_empty_object : _checkAndConvertToArray (VObj []) = VObj [].
Proof. reflexivity. Qed.

(** C10.  When the selected source tree holds an empty mapping at the
    offset, [val()] is the empty mapping (with no key the density test
    compares 0 with 0), so [exists()] is true while [hasChildren()] is
    false and [numChildren()] is 0. *)
Theorem empty_mapping_exists_without_children {Apps AuthMode : Type} {U : Utils}
    (s : DeltaSnapshot Apps AuthMode) :
  resolve s = VObj [] ->
  val s = VObj [] /\ exists_ s = true /\ hasChildren s = false /\ numChildren s = 0.
Proof.
  intros Hr.
  assert (Hv : val s = VObj []) by (unfold val; rewrite Hr; reflexivity).
  unfold exists_, hasChildren, numChildren. rewrite Hv. repeat split.
Qed.

Lemma empty_mapping_exists_without_children_witness :
  let U := SpecUtils.spec_utils in
  val example_empty_root = VObj [] /\ exists_ example_empty_root = true /\
  hasChildren example_empty_root = false /\ numChildren example_empty_root = 0.
Proof.
  apply (empty_mapping_exists_without_children (U := SpecUtils.spec_utils) example_empty_root).
  reflexivity.
Defined.

(** ** Enumeration *)

Lemma logged_call {Apps AuthMode W : Type}
    (action : visitor Apps AuthMode W) (c : loc) (h : heap Apps AuthMode)
    (w : W) (log : list (option (DeltaSnapshot Apps AuthMode))) :
  logged action c h (w, log)
  = let '(b, h', w') := action c h w in (b, h', (w', log ++ [h !! c])).
Proof. reflexivity. Qed.

Lemma forEach_keys_logged {Apps AuthMode W : Type} {U : Utils}
    (action : visitor Apps AuthMode W) (this : loc)
    (s : DeltaSnapshot Apps AuthMode) :
  visitor_keeps action ->
  forall (ks : list string) (h : heap Apps AuthMode) (w : W)
         (log : list (option (DeltaSnapshot Apps AuthMode))),
    h !! this = Some s ->
    exists (h' : heap Apps AuthMode) (w' : W),
      forEach_keys this (logged action) ks h (w, log)
      = Some (h', (w', log ++ map (fun k => Some (child_fields s (Some k))) ks)) /\
      keeps h h'.
Proof.
  intros Hact ks.
  induction ks as [ | k ks IH]; intros h w log Hs.
  - exists h, w. simpl. rewrite app_nil_r. split; [reflexivity|apply keeps_refl].
  - destruct (navigate_result (NavChild (Some k)) this h s Hs) as (c & h1 & Hc & Hk1 & Hl).
    simpl in Hc, Hl. simpl. rewrite Hc, logged_call.
    pose proof (Hact c h1 w) as Hk2.
    destruct (action c h1 w) as [[b h2] w2]. simpl in Hk2.
    destruct (IH h2 w2 (log ++ [h1 !! c])) as (h' & w' & Hrun & Hk3).
    { apply Hk2, Hk1, Hs. }
    exists h', w'. simpl. rewrite Hrun, Hl, <- app_assoc. simpl.
    split; [reflexivity|].
    eapply keeps_trans; [exact Hk1|]. eapply keeps_trans; eassumption.
Qed.

(** C8.  Whatever the visitor does and answers: when [val()] is a plain
    object, [forEach] hands it, once per key of [val()] and in the order
    of these keys, the instance [this.child(key)], and goes through all the
    keys; when [val()] is anything else the visitor is not called; in
    both cases [forEach] returns [false]. *)
Theorem forEach_visits_each_key_once {Apps AuthMode W : Type} {U : Utils}
    (action : visitor Apps AuthMode W) (this : loc)
    (h : heap Apps AuthMode) (w : W) (s : DeltaSnapshot Apps AuthMode) :
  visitor_keeps action ->
  h !! this = Some s ->
  exists (h' : heap Apps AuthMode) (w' : W)
         (log : list (option (DeltaSnapshot Apps AuthMode))),
    forEach this (logged action) h (w, []) = Some (false, h', (w', log)) /\
    keeps h h' /\
    log = if isPlainObject (val s)
          then map (fun k => Some (child_fields s (Some k))) (keys (val s))
          else [].
Proof.
  intros Hact Hs. unfold forEach. rewrite Hs.
  destruct (isPlainObject (val s)) eqn:Hp.
  - destruct (forEach_keys_logged action this s Hact (keys (val s)) h w [] Hs)
      as (h' & w' & Hrun & Hk).
    exists h', w', (map (fun k => Some (child_fields s (Some k))) (keys (val s))).
    rewrite Hrun. simpl. repeat split. exact Hk.
  - exists h, w, []. repeat split. apply keeps_refl.
Qed.

Lemma forEach_visits_each_key_once_witness :
  let U := SpecUtils.spec_utils in
  exists (h' : heap unit unit) (w' : nat)
         (log : list (option (DeltaSnapshot unit unit))),
    forEach 0 (logged counting_visitor) [example_root] (0, []) = Some (false, h', (w', log)) /\
    keeps [example_root] h' /\
    log = if isPlainObject (val example_root)
          then map (fun k => Some (child_fields example_root (Some k)))
                   (keys (val example_root))
          else [].
Proof.
  apply (forEach_visits_each_key_once (U := SpecUtils.spec_utils)
           counting_visitor 0 [example_root] 0 example_root).
  - intros c h w l x Hl. exact Hl.
  - reflexivity.
Defined.

Example forEach_example :
  forEach (U := SpecUtils.spec_utils) 0 (logged counting_visitor) [example_root] (0, [])
  = Some (false,
          [example_root; child_fields (U := SpecUtils.spec_utils) example_root (Some "a")],
          (1, [Some (child_fields (U := SpecUtils.spec_utils) example_root (Some "a"))])).
Proof. vm_compute. reflexivity. Qed.

(** ** Keys *)



(** On the heap, [child('')] and [child()] return the receiver itself. *)
Lemma child_empty_is_receiver {Apps AuthMode : Type} {U : Utils}
    (this : loc) (h : heap Apps AuthMode) (s : DeltaSnapshot Apps AuthMode) :
  h !! this = Some s ->
  child this (Some EmptyString) h = Some (this, h) /\ child this None h = Some (this, h).
Proof. intros Hs. unfold child. rewrite Hs. split; reflexivity. Qed.

(** ** The resource string *)

Lemma strip_prefix_Some (p s r : string) :
  strip_prefix p s = Some r -> s = String.append p r.
Proof.
  revert s. induction p as [ | a p IH]; intros s; simpl.
  - intros [= ->]. reflexivity.
  - destruct s as [ | b s]; [discriminate|].
    destruct (Ascii.eqb a b) eqn:Hab; [|discriminate].
    apply Ascii.eqb_eq in Hab. subst b.
    intros Hs. rewrite (IH s Hs). reflexivity.
Qed.

Lemma match_here_shape (r1 : string) :
  match_here (String.append "projects/_/instances/" r1)
  = let '(id, rest) := span_until is_slash r1 in
    if is_empty id then None
    else match strip_prefix "/refs" rest with
         | None => None
         | Some r5 => Some ("_", id, match_ref_group r5)
         end.
Proof. reflexivity. Qed.

Lemma match_here_conforming (s : string) :
  conforms_to_grammar s = true ->
  exists (id : string) (r : option string), match_here s = Some ("_", id, r).
Proof.
  unfold conforms_to_grammar.
  destruct (strip_prefix "projects/_/instances/" s) as [r1 | ] eqn:Hp; [|discriminate].
  apply strip_prefix_Some in Hp. subst s.
  rewrite match_here_shape.
  destruct (span_until is_slash r1) as [id rest].
  destruct (is_empty id); cbn [negb andb]; [discriminate|].
  destruct (strip_prefix "/refs" rest) as [r5 | ]; [|discriminate].
  intros _. eexists _, _. reflexivity.
Qed.

Lemma resource_match_here (s : string) (m : string * string * option string) :
  match_here s = Some m -> resource_match s = Some m.
Proof. intros Hm. destruct s; cbn [resource_match]; rewrite Hm; reflexivity. Qed.

(** A resource that follows the grammar is accepted. *)
Lemma conforming_resource_accepted {Apps AuthMode : Type} {U : Utils}
    (apps : Apps) (ev : RawEvent AuthMode) :
  conforms_to_grammar (resource ev) = true ->
  did_throw (constructor apps (Some ev)) = false.
Proof.
  intros Hc.
  destruct (match_here_conforming _ Hc) as (id & r & Hm).
  unfold constructor. rewrite (resource_match_here _ _ Hm). reflexivity.
Qed.

(** The constructor throws exactly when the expression matches nowhere in
    the resource, or when the first group of its leftmost match is not
    the underscore. *)
Lemma constructor_throws_iff {Apps AuthMode : Type} {U : Utils}
    (apps : Apps) (ev : RawEvent AuthMode) :
  did_throw (constructor apps (Some ev)) = true <->
  match resource_match (resource ev) with
  | None => True
  | Some (project, _, _) => project <> "_"
  end.
Proof.
  unfold constructor.
  destruct (resource_match (resource ev)) as [[[project instance] r] | ]; simpl.
  - destruct (String.eqb project "_") eqn:He; simpl.
    + apply String.eqb_eq in He. split; [discriminate|congruence].
    + apply String.eqb_neq in He. split; [intros _; exact He|reflexivity].
  - split; [intros _; exact I|reflexivity].
Qed.

(** C4, on the code.  A resource that does not follow the grammar is
    accepted when the expression matches inside it: with a character
    before [projects], or with characters glued after [refs], the
    constructor returns an instance. *)
Theorem constructor_accepts_nonconforming_resource :
  let U := SpecUtils.spec_utils in
  conforms_to_grammar resource_with_prefix = false /\
  did_throw (constructor tt (Some (event_with_resource resource_with_prefix))) = false /\
  conforms_to_grammar resource_with_suffix = false /\
  did_throw (constructor tt (Some (event_with_resource resource_with_suffix))) = false /\
  resource_match resource_with_prefix = Some ("_", "db", Some "/users") /\
  resource_match resource_with_suffix = Some ("_", "db", None).
Proof. vm_compute. repeat split. Qed.

(** ** Reading absent paths *)

Lemma exists_iff_val_not_null {Apps AuthMode : Type} {U : Utils}
    (s : DeltaSnapshot Apps AuthMode) :
  exists_ s = true <-> val s <> VNull.
Proof.
  unfold exists_. destruct (val s); simpl; split;
    try discriminate; try congruence; intros _; reflexivity.
Qed.

(** When the property reads along the offset end on nothing, [val()] is
    [null] and [exists()] is false. *)
Lemma unresolved_path_reads_null {Apps AuthMode : Type} {U : Utils}
    (s : DeltaSnapshot Apps AuthMode) :
  pathParts (_childPath s) <> [] ->
  baseGet (source s) (pathParts (_childPath s)) = VUndef ->
  val s = VNull /\ exists_ s = false.
Proof.
  intros Hparts Hget.
  assert (Hr : resolve s = VNull).
  { unfold resolve, get.
    destruct (pathParts (_childPath s)) as [ | k rest] eqn:Hp; [congruence|].
    rewrite Hget. destruct (source s); reflexivity. }
  unfold exists_, val. rewrite Hr. split; reflexivity.
Qed.

(** C6, on the code.  The tree [{a: "hello"}] has nothing at the path
    [a/length], in the base, in the delta and in the derived tree alike;
    yet [child('a/length').val()] is the number 5 (the length of the
    string found on the way) and [exists()] is true. *)
Theorem absent_path_under_string_reads_length :
  let U := SpecUtils.spec_utils in
  let c := child_fields example_string_root (Some "a/length") in
  pathParts (_childPath c) = ["a"; "length"] /\
  SpecUtils.tree_at (_data c) ["a"; "length"] = VUndef /\
  SpecUtils.tree_at (_delta c) ["a"; "length"] = VUndef /\
  SpecUtils.tree_at (_newData c) ["a"; "length"] = VUndef /\
  val c = VNum 5 /\
  exists_ c = true /\
  val (previous_fields c) = VNum 5.
Proof. vm_compute. repeat split. Qed.

(** ** The normalizer on mappings *)

Lemma obj_lookup_fresh (k : string) (v : value) (obj : list (string * value)) :
  fresh_last k (map fst obj) = true -> obj_lookup k obj = None.
Proof.
  induction obj as [ | [k' v'] obj IH]; simpl; [reflexivity|].
  intros H. apply andb_true_iff in H. destruct H as [H1 H2].
  apply andb_true_iff in H1. destruct H1 as [Hne _].
  destruct (String.eqb k k'); [discriminate|]. apply IH, H2.
Qed.

Lemma obj_insert_fresh (k : string) (v : value) (obj : list (string * value)) :
  fresh_last k (map fst obj) = true -> obj_insert k v obj = obj ++ [(k, v)].
Proof.
  induction obj as [ | [k' v'] obj IH]; simpl; [reflexivity|].
  intros H. apply andb_true_iff in H. destruct H as [H1 H2].
  apply andb_true_iff in H1. destruct H1 as [_ Hgo].
  destruct (goes_before k k'); [discriminate|]. rewrite (IH H2). reflexivity.
Qed.

(** Assigning a key that is new and last in property order appends it. *)
Lemma obj_set_fresh (k : string) (v : value) (obj : list (string * value)) :
  String.eqb k "__proto__" = false ->
  fresh_last k (map fst obj) = true -> obj_set k v obj = obj ++ [(k, v)].
Proof.
  intros Hk H. unfold obj_set, obj_has. rewrite Hk.
  rewrite (obj_lookup_fresh k v obj H). apply obj_insert_fresh, H.
Qed.

(** The state of the loop after the entries [todo], from any state whose
    object is followed in property order by the keys of [todo]. *)
Lemma conv_loop_state (todo : list (string * value)) :
  forall st : conv_state,
    own_key_order (map fst (cs_obj st)) (map fst todo) = true ->
    let st' := fold_left conv_step todo st in
    cs_obj st' = cs_obj st ++ todo /\
    cs_numKeys st' = (cs_numKeys st + N.of_nat (length todo))%N /\
    cs_allIntegerKeys st'
    = cs_allIntegerKeys st && all_integer_keys (map fst todo) /\
    (cs_allIntegerKeys st' = true ->
     cs_maxKey st' = fold_left N.max (map Number (map fst todo)) (cs_maxKey st)).
Proof.
  induction todo as [ | [k v] todo IH]; intros st Hord; cbn zeta.
  - simpl. rewrite app_nil_r, N.add_0_r, andb_true_r. repeat split.
  - cbn [map fst own_key_order] in Hord.
    apply andb_true_iff in Hord. destruct Hord as [Hk Hrest].
    apply andb_true_iff in Hk. destruct Hk as [Hproto Hfresh].
    apply negb_true_iff in Hproto.
    cbn [fold_left].
    assert (Hobj : cs_obj (conv_step st (k, v)) = cs_obj st ++ [(k, v)]).
    { unfold conv_step. rewrite (obj_set_fresh k v _ Hproto Hfresh).
      destruct (cs_allIntegerKeys st && integerRegExp_test k); reflexivity. }
    assert (Hnum : cs_numKeys (conv_step st (k, v)) = (cs_numKeys st + 1)%N).
    { unfold conv_step.
      destruct (cs_allIntegerKeys st && integerRegExp_test k); reflexivity. }
    assert (Hall : cs_allIntegerKeys (conv_step st (k, v))
                   = cs_allIntegerKeys st && integerRegExp_test k).
    { unfold conv_step.
      destruct (cs_allIntegerKeys st && integerRegExp_test k); reflexivity. }
    assert (Hmax : cs_allIntegerKeys (conv_step st (k, v)) = true ->
                   cs_maxKey (conv_step st (k, v)) = N.max (cs_maxKey st) (Number k)).
    { unfold conv_step.
      destruct (cs_allIntegerKeys st && integerRegExp_test k); [reflexivity|discriminate]. }
    destruct (IH (conv_step st (k, v))) as (I1 & I2 & I3 & I4).
    { rewrite Hobj, map_app. exact Hrest. }
    rewrite I1, I2, I3, Hobj, Hnum, Hall.
    split; [rewrite <- app_assoc; reflexivity|].
    split; [cbn [length]; lia|].
    split; [cbn [map fst all_integer_keys forallb]; rewrite andb_assoc; reflexivity|].
    intros Hfinal. rewrite I4 by (rewrite I3, Hall; exact Hfinal).
    rewrite Hmax; [reflexivity|].
    rewrite Hall. apply andb_true_iff in Hfinal. apply Hfinal.
Qed.

(** ** Array assignment *)

Lemma arr_set_length (i : nat) (v : value) (l : list (option value)) :
  length (arr_set i v l) = Nat.max (S i) (length l).
Proof.
  revert l. induction i as [ | i IH]; intros [ | e l]; simpl; try reflexivity.
  - rewrite IH. simpl. lia.
  - rewrite IH. reflexivity.
Qed.

Lemma arr_set_lookup_same (i : nat) (v : value) (l : list (option value)) :
  arr_set i v l !! i = Some (Some v).
Proof.
  revert l. induction i as [ | i IH]; intros [ | e l]; simpl; try reflexivity; apply IH.
Qed.

Lemma arr_set_lookup_other (i j : nat) (v : value) (l : list (option value)) :
  j <> i ->
  arr_set i v l !! j
  = if (j <? length l)%nat then l !! j
    else if (j <? i)%nat then Some None else None.
Proof.
  revert j l. induction i as [ | i IH]; intros j l Hne.
  - destruct l as [ | e l]; destruct j as [ | j]; try congruence; simpl.
    + reflexivity.
    + destruct (j <? length l)%nat eqn:Hj.
      * replace (S j <? S (length l))%nat with true
          by (symmetry; apply Nat.ltb_lt; apply Nat.ltb_lt in Hj; lia).
        reflexivity.
      * replace (S j <? S (length l))%nat with false
          by (symmetry; apply Nat.ltb_ge; apply Nat.ltb_ge in Hj; lia).
        apply lookup_ge_None_2. apply Nat.ltb_ge in Hj. exact Hj.
  - destruct l as [ | e l]; destruct j as [ | j]; simpl; try reflexivity.
    + rewrite IH by congruence. simpl. reflexivity.
    + rewrite IH by congruence.
      change (S j <? S (length l))%nat with (j <? length l)%nat.
      change (S j <? S i)%nat with (j <? i)%nat. reflexivity.
Qed.

Lemma to_array_length (kids : list (string * value)) :
  forall arr : list (option value),
    length (fold_left array_assign kids arr)
    = Nat.max (length arr) (assigned_length (map fst kids)).
Proof.
  induction kids as [ | [k v] kids IH]; intros arr;
    cbn [fold_left map fst assigned_length fold_right].
  - lia.
  - rewrite IH. unfold array_assign. cbn [fst snd]. rewrite arr_set_length.
    fold (assigned_length (map fst kids)). lia.
Qed.

Lemma obj_lookup_not_in (k : string) (kids : list (string * value)) :
  ~ In k (map fst kids) -> obj_lookup k kids = None.
Proof.
  induction kids as [ | [k' v'] kids IH]; simpl; [reflexivity|].
  intros Hn. destruct (String.eqb k k') eqn:He.
  - apply String.eqb_eq in He. subst k'. exfalso. apply Hn. left. reflexivity.
  - apply IH. intros Hin. apply Hn. right. exact Hin.
Qed.

(** The slots after the assignments of [kids], whose keys all pass the
    test and are pairwise distinct. *)
Lemma to_array_lookup (kids : list (string * value)) :
  all_integer_keys (map fst kids) = true ->
  NoDup (map fst kids) ->
  forall (arr : list (option value)) (j : nat),
    fold_left array_assign kids arr !! j
    = match obj_lookup (String_of_index (N.of_nat j)) kids with
      | Some v => Some (Some v)
      | None =>
          if (j <? length arr)%nat then arr !! j
          else if (j <? assigned_length (map fst kids))%nat then Some None
               else None
      end.
Proof.
  induction kids as [ | [k v] kids IH]; intros Hall Hnd arr j.
  - simpl. destruct (j <? length arr)%nat eqn:Hj; [reflexivity|].
    apply lookup_ge_None_2. apply Nat.ltb_ge in Hj. exact Hj.
  - cbn [map fst all_integer_keys forallb] in Hall.
    apply andb_true_iff in Hall. destruct Hall as [Hk Hall].
    cbn [map fst] in Hnd. apply NoDup_cons in Hnd. destruct Hnd as [Hnotin Hnd].
    cbn [fold_left]. rewrite (IH Hall Hnd).
    cbn [obj_lookup map fst assigned_length fold_right].
    fold (assigned_length (map fst kids)).
    unfold array_assign. cbn [fst snd]. rewrite arr_set_length.
    destruct (String.eqb (String_of_index (N.of_nat j)) k) eqn:He.
    + apply String.eqb_eq in He. subst k.
      rewrite obj_lookup_not_in by (rewrite <- list_elem_of_In; exact Hnotin).
      rewrite Number_of_String, Nat2N.id.
      replace (j <? Nat.max (S j) (length arr))%nat with true
        by (symmetry; apply Nat.ltb_lt; lia).
      apply arr_set_lookup_same.
    + destruct (obj_lookup (String_of_index (N.of_nat j)) kids) as [v' | ]; [reflexivity|].
      assert (Hne : j <> N.to_nat (Number k)).
      { intros ->. rewrite N2Nat.id, (String_of_Number k Hk), String.eqb_refl in He.
        discriminate. }
      rewrite (arr_set_lookup_other _ _ _ _ Hne).
      destruct (j <? length arr)%nat eqn:H1.
      * replace (j <? Nat.max (S (N.to_nat (Number k))) (length arr))%nat with true
          by (symmetry; apply Nat.ltb_lt; apply Nat.ltb_lt in H1; lia).
        reflexivity.
      * apply Nat.ltb_ge in H1.
        destruct (j <? N.to_nat (Number k))%nat eqn:H2.
        -- apply Nat.ltb_lt in H2.
           replace (j <? Nat.max (S (N.to_nat (Number k))) (length arr))%nat with true
             by (symmetry; apply Nat.ltb_lt; lia).
           replace (j <? Nat.max (S (N.to_nat (Number k))) (assigned_length (map fst kids)))%nat
             with true by (symmetry; apply Nat.ltb_lt; lia).
           reflexivity.
        -- apply Nat.ltb_ge in H2.
           replace (j <? Nat.max (S (N.to_nat (Number k))) (length arr))%nat with false
             by (symmetry; apply Nat.ltb_ge; lia).
           destruct (j <? assigned_length (map fst kids))%nat eqn:H3.
           ++ apply Nat.ltb_lt in H3.
              replace (j <? Nat.max (S (N.to_nat (Number k))) (assigned_length (map fst kids)))%nat
                with true by (symmetry; apply Nat.ltb_lt; lia).
              reflexivity.
           ++ apply Nat.ltb_ge in H3.
              replace (j <? Nat.max (S (N.to_nat (Number k))) (assigned_length (map fst kids)))%nat
                with false by (symmetry; apply Nat.ltb_ge; lia).
              reflexivity.
Qed.

Lemma lookup_map_list {A B : Type} (f : A -> B) (l : list A) (i : nat) :
  map f l !! i = option_map f (l !! i).
Proof.
  revert i. induction l as [ | x l IH]; intros [ | i]; simpl; try reflexivity. apply IH.
Qed.

Lemma indices_lookup (n : N) (j : nat) :
  indices n !! j = if (j <? N.to_nat n)%nat then Some (N.of_nat j) else None.
Proof.
  unfold indices. rewrite lookup_map_list.
  destruct (j <? N.to_nat n)%nat eqn:Hj.
  - apply Nat.ltb_lt in Hj. rewrite lookup_seq_lt by exact Hj. reflexivity.
  - apply Nat.ltb_ge in Hj. rewrite lookup_seq_ge by exact Hj. reflexivity.
Qed.

Lemma fold_left_Nmax (l : list N) (a : N) :
  fold_left N.max l a = N.max a (fold_left N.max l 0%N).
Proof.
  revert a. induction l as [ | x l IH]; intros a; simpl.
  - lia.
  - rewrite (IH (N.max a x)), (IH (N.max 0 x)). lia.
Qed.

Lemma max_key_cons (k : string) (ks : list string) :
  max_key (k :: ks) = N.max (Number k) (max_key ks).
Proof.
  unfold max_key. cbn [map fold_left]. rewrite fold_left_Nmax. lia.
Qed.

Lemma assigned_length_max_key (ks : list string) :
  assigned_length ks
  = match ks with [] => 0 | _ :: _ => S (N.to_nat (max_key ks)) end.
Proof.
  induction ks as [ | k ks IH]; [reflexivity|].
  cbn [assigned_length fold_right]. fold (assigned_length ks).
  rewrite IH, max_key_cons.
  destruct ks as [ | k' ks]; [unfold max_key; simpl; lia|lia].
Qed.

Lemma own_key_order_not_seen (ks seen : list string) :
  own_key_order seen ks = true ->
  forall k : string, In k seen -> ~ In k ks.
Proof.
  revert seen. induction ks as [ | k' ks IH]; intros seen Hord k Hseen Hin.
  - destruct Hin.
  - cbn [own_key_order] in Hord.
    apply andb_true_iff in Hord. destruct Hord as [Hk Hrest].
    apply andb_true_iff in Hk. destruct Hk as [_ Hfresh].
    destruct Hin as [-> | Hin].
    + unfold fresh_last in Hfresh. rewrite forallb_forall in Hfresh.
      specialize (Hfresh k Hseen). rewrite String.eqb_refl in Hfresh. discriminate.
    + apply (IH (seen ++ [k']) Hrest k); [apply in_or_app; left; exact Hseen|exact Hin].
Qed.

Lemma own_key_order_NoDup (ks seen : list string) :
  own_key_order seen ks = true -> NoDup ks.
Proof.
  revert seen. induction ks as [ | k ks IH]; intros seen Hord.
  - apply NoDup_nil_2.
  - cbn [own_key_order] in Hord.
    apply andb_true_iff in Hord. destruct Hord as [_ Hrest].
    apply NoDup_cons. split.
    + rewrite list_elem_of_In.
      apply (own_key_order_not_seen ks (seen ++ [k]) Hrest).
      apply in_or_app. right. left. reflexivity.
    + apply (IH _ Hrest).
Qed.

(** The second loop builds the sequence described by [sequence_of]. *)
Lemma to_array_sequence (kids : list (string * value)) :
  kids <> [] ->
  all_integer_keys (map fst kids) = true ->
  NoDup (map fst kids) ->
  to_array kids = sequence_of kids.
Proof.
  intros Hne Hall Hnd. apply list_eq. intros j.
  unfold to_array, sequence_of.
  rewrite (to_array_lookup kids Hall Hnd), lookup_map_list, indices_lookup.
  rewrite assigned_length_max_key.
  destruct kids as [ | kv kids]; [congruence|].
  cbn [map]. set (ks := fst kv :: map fst kids).
  replace (N.to_nat (max_key ks + 1)) with (S (N.to_nat (max_key ks))) by lia.
  cbn [length].
  replace (j <? 0)%nat with false by (symmetry; apply Nat.ltb_ge; lia).
  destruct (j <? S (N.to_nat (max_key ks)))%nat eqn:Hj; cbn [option_map].
  - destruct (obj_lookup (String_of_index (N.of_nat j)) (kv :: kids)); reflexivity.
  - destruct (obj_lookup (String_of_index (N.of_nat j)) (kv :: kids)) as [v | ] eqn:Hl;
      [|reflexivity].
    exfalso.
    assert (Hlen : (j < length (fold_left array_assign (kv :: kids) []))%nat).
    { apply lookup_lt_is_Some. rewrite (to_array_lookup (kv :: kids) Hall Hnd), Hl.
      eexists. reflexivity. }
    rewrite to_array_length, assigned_length_max_key in Hlen.
    cbn [map length] in Hlen. fold ks in Hlen.
    apply Nat.ltb_ge in Hj. lia.
Qed.

Lemma normalized_children_keys (props : list (string * value)) :
  map fst (normalized_children props) = map fst props.
Proof.
  unfold normalized_children. induction props as [ | [k v] props IH]; simpl;
    [reflexivity|rewrite IH; reflexivity].
Qed.

Lemma normalized_children_map (props : list (string * value)) :
  map (fun kv => match kv with (k, c) => (k, _checkAndConvertToArray c) end) props
  = normalized_children props.
Proof.
  unfold normalized_children. apply map_ext. intros [k c]. reflexivity.
Qed.

(** The normalizer on a mapping that [_.forEach] iterates by its own
    properties: the children are normalized; when every key passes the
    integer test and the largest key is below twice the number of keys,
    the result is the sequence whose slot [i] holds the normalized child
    keyed by the decimal writing of [i] (a hole when there is none);
    otherwise it is the mapping of the normalized children, keys in the
    original order. *)
Lemma convert_plain_mapping (props : list (string * value)) :
  js_object props = true ->
  array_like props = false ->
  _checkAndConvertToArray (VObj props)
  = if all_integer_keys (map fst props)
       && (max_key (map fst props) <? 2 * N.of_nat (length props))%N
    then VArr (sequence_of (normalized_children props))
    else VObj (normalized_children props).
Proof.
  intros Hjs Hal. cbn [_checkAndConvertToArray].
  unfold array_like in Hal.
  destruct (isLength (obj_lookup "length" props)); [discriminate|].
  rewrite normalized_children_map.
  set (kids := normalized_children props).
  assert (Hkeys : map fst kids = map fst props) by apply normalized_children_keys.
  unfold conv_loop.
  destruct (conv_loop_state kids conv_init) as (S1 & S2 & S3 & S4).
  { cbn [conv_init cs_obj map]. rewrite Hkeys. exact Hjs. }
  cbn [conv_init cs_obj cs_numKeys cs_allIntegerKeys cs_maxKey app andb] in S1, S2, S3, S4.
  unfold conv_finish. rewrite S1, S2, S3, Hkeys.
  replace (length kids) with (length props)
    by (unfold kids, normalized_children; rewrite length_map; reflexivity).
  rewrite N.add_0_l.
  destruct (all_integer_keys (map fst props)) eqn:Hall; cbn [andb]; [|reflexivity].
  rewrite S4 by (rewrite S3, Hkeys; exact Hall).
  rewrite Hkeys. fold (max_key (map fst props)).
  destruct (max_key (map fst props) <? 2 * N.of_nat (length props))%N eqn:Hd; [|reflexivity].
  f_equal. apply to_array_sequence.
  - intros Hk. apply N.ltb_lt in Hd.
    assert (length props = 0) as Hz.
    { replace (length props) with (length kids)
        by (unfold kids, normalized_children; rewrite length_map; reflexivity).
      rewrite Hk. reflexivity. }
    rewrite Hz in Hd. simpl in Hd. lia.
  - rewrite Hkeys. exact Hall.
  - rewrite Hkeys. exact (own_key_order_NoDup _ _ Hjs).
Qed.

Example convert_plain_mapping_holes :
  _checkAndConvertToArray (VObj [("0", VStr "a"); ("2", VObj [("x", VNull)])])
  = VArr [Some (VStr "a"); None; Some (VObj [("x", VNull)])].
Proof.
  rewrite convert_plain_mapping by reflexivity.
  vm_compute. reflexivity.
Qed.

(** A child named [__proto__] does not come back: the assignment in
    the first loop creates no own property. *)
Lemma convert_proto_child :
  _checkAndConvertToArray (VObj [("__proto__", VNum 1); ("a", VNum 2)])
  = VObj [("a", VNum 2)].
Proof. vm_compute. reflexivity. Qed.

(** C1, on the code.  The mapping [{length: 2, width: 3}] has keys that
    fail the integer test, so it should come back as the mapping of its
    normalized children; [_.forEach] iterates it like an array of length
    2, and the normalizer returns the sequence [[null, null]]. *)
Theorem convert_mapping_with_length_child :
  js_object example_box = true /\
  all_integer_keys (map fst example_box) = false /\
  normalized_children example_box = example_box /\
  array_like example_box = true /\
  _checkAndConvertToArray (VObj example_box) = VArr [Some VNull; Some VNull] /\
  _checkAndConvertToArray (VObj example_box) <> VObj (normalized_children example_box).
Proof. vm_compute. repeat split. discriminate. Qed.

(** * Further properties of the snapshot code *)

(** ** Views and offsets *)

Lemma navigate_all_result {Apps AuthMode : Type} {U : Utils}
    (ops : list nav) :
  forall (this : loc) (h : heap Apps AuthMode) (s : DeltaSnapshot Apps AuthMode),
    h !! this = Some s ->
    exists (r : loc) (h' : heap Apps AuthMode) (fresh : heap Apps AuthMode),
      navigate_all ops this h = Some (r, h') /\
      h' !! r = Some (nav_fields_all ops s) /\
      h' = h ++ fresh /\ length fresh <= length ops.
Proof.
  induction ops as [ | op ops IH]; intros this h s Hs.
  - exists this, h, []. simpl. rewrite app_nil_r. repeat split; [exact Hs|lia].
  - assert (Hstep : exists (r1 : loc) (fresh1 : heap Apps AuthMode),
               navigate op this h = Some (r1, h ++ fresh1) /\
               (h ++ fresh1) !! r1 = Some (nav_fields op s) /\
               length fresh1 <= 1).
    { destruct op as [p | | ]; simpl;
        unfold child, previous, current, _dup, child_fields, previous_fields,
          current_fields, alloc; rewrite Hs.
      - destruct (truthy p); simpl.
        + exists (length h), [dup_fields s (_isPrevious s) p].
          split; [reflexivity|]. split; [apply list_lookup_middle; reflexivity|simpl; lia].
        + exists this, []. rewrite app_nil_r. repeat split; [exact Hs|simpl; lia].
      - destruct (_isPrevious s).
        + exists this, []. rewrite app_nil_r. repeat split; [exact Hs|simpl; lia].
        + exists (length h), [dup_fields s true None].
          split; [reflexivity|]. split; [apply list_lookup_middle; reflexivity|simpl; lia].
      - destruct (_isPrevious s).
        + exists (length h), [dup_fields s false None].
          split; [reflexivity|]. split; [apply list_lookup_middle; reflexivity|simpl; lia].
        + exists this, []. rewrite app_nil_r. repeat split; [exact Hs|simpl; lia]. }
    destruct Hstep as (r1 & fresh1 & Hn & Hl & Hlen).
    destruct (IH r1 (h ++ fresh1) (nav_fields op s) Hl)
      as (r & h' & fresh & Hnav & Hr & Hh & Hlen').
    exists r, h', (fresh1 ++ fresh).
    cbn [navigate_all]. rewrite Hn.
    split; [exact Hnav|]. split; [exact Hr|].
    split; [rewrite Hh, app_assoc; reflexivity|].
    rewrite length_app. simpl. lia.
Qed.

Lemma dup_fields_again {Apps AuthMode : Type} {U : Utils}
    (s : DeltaSnapshot Apps AuthMode) (f g : bool) :
  dup_fields (dup_fields s f None) g None = dup_fields s g None.
Proof. destruct f, g; reflexivity. Qed.

Lemma dup_fields_self {Apps AuthMode : Type} {U : Utils}
    (s : DeltaSnapshot Apps AuthMode) :
  dup_fields s (_isPrevious s) None = s.
Proof. destruct s as [a p d dl n au cp []]; reflexivity. Qed.

(** X1.  Switching views forgets the view one comes from: the instance
    reached by [previous] then [current] has the fields of the one
    reached by [current], and the other way round, whatever the
    receiver; on the heap, the two steps allocate at most two instances
    and leave the allocated ones in place. *)
Theorem view_switch_round_trip {Apps AuthMode : Type} {U : Utils}
    (this : loc) (h : heap Apps AuthMode) (s : DeltaSnapshot Apps AuthMode) :
  h !! this = Some s ->
  current_fields (previous_fields s) = current_fields s /\
  previous_fields (current_fields s) = previous_fields s /\
  exists (r : loc) (h' fresh : heap Apps AuthMode),
    navigate_all [NavPrevious; NavCurrent] this h = Some (r, h') /\
    h' !! r = Some (current_fields s) /\
    h' = h ++ fresh /\ length fresh <= 2.
Proof.
  intros Hs.
  assert (E1 : current_fields (previous_fields s) = current_fields s).
  { unfold current_fields, previous_fields.
    destruct (_isPrevious s) eqn:Hp.
    - rewrite Hp. reflexivity.
    - rewrite dup_fields_isPrevious, dup_fields_again.
      rewrite <- Hp. apply dup_fields_self. }
  assert (E2 : previous_fields (current_fields s) = previous_fields s).
  { unfold current_fields, previous_fields.
    destruct (_isPrevious s) eqn:Hp.
    - rewrite dup_fields_isPrevious, dup_fields_again.
      rewrite <- Hp. apply dup_fields_self.
    - rewrite Hp. reflexivity. }
  split; [exact E1|]. split; [exact E2|].
  destruct (navigate_all_result [NavPrevious; NavCurrent] this h s Hs)
    as (r & h' & fresh & Hn & Hr & Hh & Hlen).
  exists r, h', fresh. split; [exact Hn|].
  split; [|split; [exact Hh|exact Hlen]].
  rewrite Hr. unfold nav_fields_all. simpl. rewrite E1. reflexivity.
Qed.

Lemma view_switch_round_trip_witness :
  let U := SpecUtils.spec_utils in
  current_fields (previous_fields example_root) = current_fields example_root /\
  previous_fields (current_fields example_root) = previous_fields example_root /\
  exists (r : loc) (h' fresh : heap unit unit),
    navigate_all [NavPrevious; NavCurrent] 0 [example_root] = Some (r, h') /\
    h' !! r = Some (current_fields example_root) /\
    h' = [example_root] ++ fresh /\ length fresh <= 2.
Proof.
  apply (view_switch_round_trip (U := SpecUtils.spec_utils) 0 [example_root] example_root).
  reflexivity.
Defined.

(** X2.  Going to a child and switching view commute: [child(p)] of the
    previous (resp. current) view and the previous (resp. current) view
    of [child(p)] have the same fields, for every argument [p]. *)
Theorem child_commutes_with_view {Apps AuthMode : Type} {U : Utils}
    (s : DeltaSnapshot Apps AuthMode) (p : option string) :
  child_fields (previous_fields s) p = previous_fields (child_fields s p) /\
  child_fields (current_fields s) p = current_fields (child_fields s p).
Proof.
  unfold child_fields, previous_fields, current_fields.
  destruct s as [a pa d dl n au cp f].
  destruct (truthy p) eqn:Hp; destruct f; simpl;
    unfold dup_fields; simpl; rewrite ?Hp; simpl; split; reflexivity.
Qed.

(** X3.  The key does not depend on the view: the previous and the
    current view of an instance have its key and its full path. *)
Theorem key_ignores_view {Apps AuthMode : Type} {U : Utils}
    (s : DeltaSnapshot Apps AuthMode) :
  _fullPath (previous_fields s) = _fullPath s /\
  _fullPath (current_fields s) = _fullPath s /\
  key (previous_fields s) = key s /\
  key (current_fields s) = key s.
Proof.
  assert (P : _fullPath (previous_fields s) = _fullPath s).
  { unfold previous_fields. destruct (_isPrevious s); reflexivity. }
  assert (C : _fullPath (current_fields s) = _fullPath s).
  { unfold current_fields. destruct (_isPrevious s); reflexivity. }
  unfold key. rewrite P, C. repeat split.
Qed.

(** X4.  [hasChildren()] answers true exactly when [numChildren()] is
    positive. *)
Theorem hasChildren_iff_numChildren_positive {Apps AuthMode : Type} {U : Utils}
    (s : DeltaSnapshot Apps AuthMode) :
  hasChildren s = true <-> 0 < numChildren s.
Proof.
  unfold hasChildren, numChildren.
  destruct (isPlainObject (val s)); simpl.
  - rewrite Nat.ltb_lt. reflexivity.
  - split; [discriminate|lia].
Qed.

(** ** Resources *)

Lemma strip_prefix_append (p r : string) :
  strip_prefix p (String.append p r) = Some r.
Proof.
  induction p as [ | a p IH]; simpl; [reflexivity|].
  rewrite Ascii.eqb_refl. exact IH.
Qed.

Lemma span_until_free (stop : ascii -> bool) (p r : string) :
  free_of stop p = true ->
  match r with EmptyString => True | String c _ => stop c = true end ->
  span_until stop (String.append p r) = (p, r).
Proof.
  intros Hp Hr. induction p as [ | a p IH]; simpl.
  - destruct r as [ | c r]; [reflexivity|]. simpl. rewrite Hr. reflexivity.
  - simpl in Hp. apply andb_true_iff in Hp. destruct Hp as [Ha Hp].
    apply negb_true_iff in Ha. rewrite Ha, (IH Hp). reflexivity.
Qed.

Lemma span_until_split (stop : ascii -> bool) (s a b : string) :
  span_until stop s = (a, b) -> s = String.append a b.
Proof.
  revert a b. induction s as [ | c s IH]; intros a b; simpl.
  - intros [= <- <-]. reflexivity.
  - destruct (stop c).
    + intros [= <- <-]. reflexivity.
    + destruct (span_until stop s) as [a' b'] eqn:Hs.
      intros [= <- <-]. simpl. rewrite (IH a' b' eq_refl). reflexivity.
Qed.

Lemma is_empty_false (s : string) : s <> EmptyString -> is_empty s = false.
Proof. destruct s; [congruence|reflexivity]. Qed.

(** The expression matches a written-out resource at its first
    character, the groups being the parts. *)
Lemma match_here_resource_of (project instance tail : string) :
  project <> EmptyString -> free_of is_slash project = true ->
  instance <> EmptyString -> free_of is_slash instance = true ->
  match_here (resource_of project instance tail)
  = Some (project, instance, match_ref_group tail).
Proof.
  intros Hp Hps Hi His. unfold match_here, resource_of.
  rewrite strip_prefix_append.
  rewrite (span_until_free is_slash project _ Hps) by reflexivity.
  rewrite (is_empty_false _ Hp), strip_prefix_append.
  rewrite (span_until_free is_slash instance _ His) by reflexivity.
  rewrite (is_empty_false _ Hi), strip_prefix_append. reflexivity.
Qed.

Lemma match_ref_group_path (path : string) :
  path <> EmptyString -> free_of is_line_terminator path = true ->
  match_ref_group (String "/" path) = Some (String "/" path).
Proof.
  intros Hne Hfree. unfold match_ref_group.
  change (is_slash "/") with true. cbn iota.
  replace path with (String.append path EmptyString) at 1
    by (clear; induction path; simpl; congruence).
  rewrite (span_until_free is_line_terminator path EmptyString Hfree I).
  rewrite (is_empty_false _ Hne). reflexivity.
Qed.

(** X5.  Parsing a written-out resource gives back its parts: for a
    project and an instance that are not empty and hold no slash, the
    expression finds the project, the instance, and no reference when
    nothing follows [/refs], or the slash and the path when a non-empty
    path on one line follows. *)
Theorem resource_match_round_trip (project instance path : string) :
  project <> EmptyString -> free_of is_slash project = true ->
  instance <> EmptyString -> free_of is_slash instance = true ->
  path <> EmptyString -> free_of is_line_terminator path = true ->
  resource_match (resource_of project instance EmptyString)
  = Some (project, instance, None) /\
  resource_match (resource_of project instance (String "/" path))
  = Some (project, instance, Some (String "/" path)).
Proof.
  intros Hp Hps Hi His Hpath Hfree. split.
  - apply resource_match_here. rewrite match_here_resource_of by assumption. reflexivity.
  - apply resource_match_here. rewrite match_here_resource_of by assumption.
    rewrite match_ref_group_path by assumption. reflexivity.
Qed.

Lemma resource_match_round_trip_witness :
  resource_match (resource_of "_" "db" EmptyString) = Some ("_", "db", None) /\
  resource_match (resource_of "_" "db" "/users/u1")
  = Some ("_", "db", Some "/users/u1").
Proof.
  apply (resource_match_round_trip "_" "db" "users/u1");
    solve [discriminate | reflexivity].
Defined.

(** X6.  A resource whose project is not the underscore is refused with
    the project error, whatever follows [/refs] (a well-formed resource
    further in the string does not rescue it). *)
Theorem constructor_rejects_other_project {Apps AuthMode : Type} {U : Utils}
    (apps : Apps) (ev : RawEvent AuthMode) (project instance tail : string) :
  project <> EmptyString -> free_of is_slash project = true ->
  instance <> EmptyString -> free_of is_slash instance = true ->
  project <> "_" ->
  resource ev = resource_of project instance tail ->
  constructor apps (Some ev)
  = Thrown "Expect project to be '_' in a Firebase Realtime Database event".
Proof.
  intros Hp Hps Hi His Hne Hres. unfold constructor. rewrite Hres.
  rewrite (resource_match_here _ _ (match_here_resource_of project instance tail Hp Hps Hi His)).
  apply String.eqb_neq in Hne. rewrite Hne. reflexivity.
Qed.

Lemma constructor_rejects_other_project_witness :
  constructor (U := SpecUtils.spec_utils) tt
    (Some (event_on (resource_of "p" "db" "/projects/_/instances/db/refs/users")))
  = Thrown "Expect project to be '_' in a Firebase Realtime Database event".
Proof.
  apply (constructor_rejects_other_project (U := SpecUtils.spec_utils) tt
           (event_on (resource_of "p" "db" "/projects/_/instances/db/refs/users"))
           "p" "db" "/projects/_/instances/db/refs/users");
    solve [discriminate | reflexivity].
Defined.

(** X7.  The resource that [ref(ref)] builds is accepted by the
    constructor that [onWrite] registers, when the namespace is not
    empty and holds no slash and the normalized reference is on one
    line: the new instance is appended to the heap, its path is the
    normalization of the slash followed by the normalized reference (of
    [undefined] when the normalized reference is empty), and its trees
    and auth mode are the event's. *)
Theorem ref_resource_is_accepted {Apps AuthMode : Type} {U : Utils}
    (apps : Apps) (DB_NAMESPACE : option string) (r : string)
    (raw : RawEvent AuthMode) (h : heap Apps AuthMode) :
  template_text DB_NAMESPACE <> EmptyString ->
  free_of is_slash (template_text DB_NAMESPACE) = true ->
  free_of is_line_terminator (normalizePath (Some r)) = true ->
  resource raw = rb_resource (ref apps DB_NAMESPACE r) ->
  dataConstructor (ref apps DB_NAMESPACE r) raw h
  = Returned
      (length h,
       h ++ [ {| _apps := apps;
                 _path := Some (normalizePath
                                  (if is_empty (normalizePath (Some r)) then None
                                   else Some (String "/" (normalizePath (Some r)))));
                 _data := data raw;
                 _delta := delta raw;
                 _newData := applyChange (data raw) (delta raw);
                 _auth := Some (auth raw);
                 _childPath := None;
                 _isPrevious := false |} ]).
Proof.
  intros Hns Hslash Hline Hres.
  unfold dataConstructor, new_DeltaSnapshot, constructor. rewrite Hres.
  cbn [ref rb_resource rb_apps].
  change (String.append "projects/_/instances/"
            (String.append (template_text DB_NAMESPACE)
               (String.append "/refs/" (normalizePath (Some r)))))
    with (resource_of "_" (template_text DB_NAMESPACE)
            (String "/" (normalizePath (Some r)))).
  rewrite (resource_match_here _ _
             (match_here_resource_of "_" (template_text DB_NAMESPACE)
                (String "/" (normalizePath (Some r)))
                ltac:(discriminate) eq_refl Hns Hslash)).
  cbn [String.eqb Ascii.eqb Bool.eqb negb].
  destruct (normalizePath (Some r)) as [ | c n] eqn:Hn.
  - reflexivity.
  - rewrite match_ref_group_path by (try discriminate; exact Hline). reflexivity.
Qed.

Lemma ref_resource_is_accepted_witness :
  let U := SpecUtils.spec_utils in
  let builder := ref tt (Some "db") "users/u1/" in
  let raw := event_on (rb_resource builder) in
  dataConstructor builder raw []
  = Returned
      (0,
       [] ++ [ {| _apps := tt;
                  _path := Some (normalizePath
                                   (if is_empty (normalizePath (Some "users/u1/")) then None
                                    else Some (String "/" (normalizePath (Some "users/u1/")))));
                  _data := data raw;
                  _delta := delta raw;
                  _newData := applyChange (data raw) (delta raw);
                  _auth := Some (auth raw);
                  _childPath := None;
                  _isPrevious := false |} ]).
Proof.
  apply (ref_resource_is_accepted (U := SpecUtils.spec_utils) tt (Some "db") "users/u1/"
           (event_on (rb_resource (ref (U := SpecUtils.spec_utils) tt (Some "db") "users/u1/")))
           []);
    solve [discriminate | reflexivity].
Defined.

Lemma string_append_assoc (a b c : string) :
  String.append (String.append a b) c = String.append a (String.append b c).
Proof. induction a as [ | x a IH]; simpl; [reflexivity|rewrite IH; reflexivity]. Qed.

Lemma occurs_here (needle s r : string) :
  strip_prefix needle s = Some r -> occurs needle s = true.
Proof. intros H. destruct s; cbn [occurs]; rewrite H; reflexivity. Qed.

Lemma occurs_append (needle pre post : string) :
  occurs needle (String.append pre (String.append needle post)) = true.
Proof.
  induction pre as [ | c pre IH].
  - change (occurs needle (String.append needle post) = true).
    apply (occurs_here _ _ post), strip_prefix_append.
  - cbn [String.append occurs].
    destruct (strip_prefix needle (String c (String.append pre (String.append needle post))));
      [reflexivity|exact IH].
Qed.

Lemma resource_match_suffix (s : string) (m : string * string * option string) :
  resource_match s = Some m ->
  exists pre suf : string, s = String.append pre suf /\ match_here suf = Some m.
Proof.
  induction s as [ | c s IH]; cbn [resource_match].
  - destruct (match_here EmptyString) eqn:Hm; [|discriminate].
    intros [= <-]. exists EmptyString, EmptyString. split; [reflexivity|exact Hm].
  - destruct (match_here (String c s)) eqn:Hm.
    + intros [= <-]. exists EmptyString, (String c s). split; [reflexivity|exact Hm].
    + intros Hr. destruct (IH Hr) as (pre & suf & -> & Hs).
      exists (String c pre), suf. split; [reflexivity|exact Hs].
Qed.

Lemma match_here_parts (s : string) (m : string * string * option string) :
  match_here s = Some m ->
  exists a b c : string,
    s = String.append "projects/"
          (String.append a
             (String.append "/instances/" (String.append b (String.append "/refs" c)))).
Proof.
  unfold match_here.
  destruct (strip_prefix "projects/" s) as [r1 | ] eqn:H1; [|discriminate].
  destruct (span_until is_slash r1) as [project r2] eqn:H2.
  destruct (is_empty project); [discriminate|].
  destruct (strip_prefix "/instances/" r2) as [r3 | ] eqn:H3; [|discriminate].
  destruct (span_until is_slash r3) as [instance r4] eqn:H4.
  destruct (is_empty instance); [discriminate|].
  destruct (strip_prefix "/refs" r4) as [r5 | ] eqn:H5; [|discriminate].
  intros _. exists project, instance, r5.
  apply strip_prefix_Some in H1, H3, H5.
  apply span_until_split in H2, H4. congruence.
Qed.

(** X8.  A resource in which one of the three fixed parts of the
    expression ([projects/], [/instances/], [/refs]) occurs nowhere is
    refused with the resource-format error, whose message quotes the
    resource and then the expected format. *)
Theorem constructor_rejects_missing_part {Apps AuthMode : Type} {U : Utils}
    (apps : Apps) (ev : RawEvent AuthMode) :
  occurs "projects/" (resource ev) = false \/
  occurs "/instances/" (resource ev) = false \/
  occurs "/refs" (resource ev) = false ->
  constructor apps (Some ev)
  = Thrown
      (String.append "Unexpected resource string for Firebase Realtime Database event: "
         (String.append (resource ev)
            (String.append ". Expected string in the format of "
               (String "034"
                  (String.append
                     "projects/_/instances/{firebaseioSubdomain}/refs/{ref=**}"
                     (String "034" EmptyString)))))).
Proof.
  intros Hmiss. unfold constructor.
  destruct (resource_match (resource ev)) as [m | ] eqn:Hm; [exfalso|reflexivity].
  destruct (resource_match_suffix _ _ Hm) as (pre & suf & Hs & Hh).
  destruct (match_here_parts _ _ Hh) as (a & b & c & ->).
  rewrite Hs in Hmiss.
  destruct Hmiss as [H | [H | H]].
  - rewrite occurs_append in H. discriminate.
  - rewrite <- (string_append_assoc "projects/" a), <- string_append_assoc in H.
    rewrite occurs_append in H. discriminate.
  - rewrite <- (string_append_assoc "/instances/" b),
      <- (string_append_assoc a), <- (string_append_assoc "projects/"),
      <- string_append_assoc in H.
    rewrite occurs_append in H. discriminate.
Qed.

Lemma constructor_rejects_missing_part_witness :
  constructor (U := SpecUtils.spec_utils) tt (Some (event_on "projects/_/instances/db"))
  = Thrown
      (String.append "Unexpected resource string for Firebase Realtime Database event: "
         (String.append (resource (event_on "projects/_/instances/db"))
            (String.append ". Expected string in the format of "
               (String "034"
                  (String.append
                     "projects/_/instances/{firebaseioSubdomain}/refs/{ref=**}"
                     (String "034" EmptyString)))))).
Proof.
  apply (constructor_rejects_missing_part (U := SpecUtils.spec_utils) tt
           (event_on "projects/_/instances/db")).
  right. right. reflexivity.
Defined.

(** ** What the normalizer returns *)
















(** ** The deep copy *)

Lemma obj_lookup_map_values (f : value -> value) (k : string)
    (props : list (string * value)) :
  obj_lookup k (map (fun kv => match kv with (k', c) => (k', f c) end) props)
  = option_map f (obj_lookup k props).
Proof.
  induction props as [ | [k' c] props IH]; simpl; [reflexivity|].
  destruct (String.eqb k k'); [reflexivity|exact IH].
Qed.

Lemma isLength_cloneDeep (o : option value) :
  isLength (option_map cloneDeep o) = isLength o.
Proof. destruct o as [[ | | b | n | s | props | elems] | ]; reflexivity. Qed.

(** The pairs visited on two arrays whose slots are read alike. *)
Lemma visited_slots_alike (l1 l2 : list (option value)) :
  Forall2 (fun e1 e2 =>
             conv_missing (match e1 with Some v => v | None => VUndef end)
             = conv_missing (match e2 with Some v => v | None => VUndef end)) l1 l2 ->
  map (fun kv => (fst kv, conv_missing (snd kv))) (forEach_array l1)
  = map (fun kv => (fst kv, conv_missing (snd kv))) (forEach_array l2).
Proof.
  unfold forEach_array. generalize 0 as a.
  intros a H. revert a. induction H as [ | e1 e2 l1 l2 He H IH]; intros a.
  - reflexivity.
  - cbn [length seq combine map fst snd]. rewrite He, (IH (S a)). reflexivity.
Qed.

(** Normalizing the deep copy of a node is normalizing the node. *)
Lemma convert_cloneDeep (node : value) :
  _checkAndConvertToArray (cloneDeep node) = _checkAndConvertToArray node.
Proof.
  induction node as [ | | b | n | s | props IH | elems IH] using value_induction;
    try reflexivity.
  - cbn [cloneDeep _checkAndConvertToArray].
    rewrite obj_lookup_map_values, isLength_cloneDeep, map_map.
    assert (Hconv :
              map (fun x => match (match x with (k, c) => (k, cloneDeep c) end) with
                            | (k, c) => (k, _checkAndConvertToArray c)
                            end) props
              = map (fun kv => match kv with
                               | (k, c) => (k, _checkAndConvertToArray c)
                               end) props).
    { induction IH as [ | [k c] props Hc IH IH']; simpl; [reflexivity|].
      simpl in Hc. rewrite Hc, IH'. reflexivity. }
    rewrite Hconv. reflexivity.
  - cbn [cloneDeep _checkAndConvertToArray]. f_equal.
    apply visited_slots_alike.
    induction IH as [ | e elems He IH IH']; simpl; constructor; [|exact IH'].
    destruct e as [c | ]; [rewrite He|]; reflexivity.
Qed.


(** ** Index-keyed entries *)

Lemma indexed_keys (vs : list value) :
  forall a : nat, map fst (indexed a vs) = index_keys a (length vs).
Proof.
  induction vs as [ | v vs IH]; intros a; [reflexivity|].
  cbn [indexed map fst length]. rewrite IH. reflexivity.
Qed.

Lemma is_array_index_String_of_index (i : N) :
  is_array_index (String_of_index i) = (i <? 4294967295)%N.
Proof.
  unfold is_array_index.
  rewrite integerRegExp_String_of_index, Number_of_String. reflexivity.
Qed.

Lemma String_of_index_inj (i j : N) :
  String_of_index i = String_of_index j -> i = j.
Proof.
  intros H. rewrite <- (Number_of_String i), <- (Number_of_String j), H. reflexivity.
Qed.

Lemma fresh_last_index_key (a : nat) :
  forall b m : nat, b + m <= a ->
    fresh_last (String_of_index (N.of_nat a)) (index_keys b m) = true.
Proof.
  intros b m. revert b. induction m as [ | m IH]; intros b Hle; [reflexivity|].
  unfold index_keys. cbn [seq map fresh_last forallb].
  fold (index_keys (S b) m). fold (fresh_last (String_of_index (N.of_nat a)) (index_keys (S b) m)).
  rewrite IH by lia. rewrite andb_true_r.
  apply andb_true_iff. split; apply negb_true_iff.
  - apply String.eqb_neq. intros H. apply String_of_index_inj in H. lia.
  - unfold goes_before. rewrite !is_array_index_String_of_index, !Number_of_String.
    destruct (N.of_nat a <? 4294967295)%N eqn:Ha; [|reflexivity].
    apply N.ltb_lt in Ha.
    replace (N.of_nat b <? 4294967295)%N with true by (symmetry; apply N.ltb_lt; lia).
    replace (N.of_nat a <? N.of_nat b)%N with false by (symmetry; apply N.ltb_ge; lia).
    reflexivity.
Qed.

Lemma index_key_not_proto (i : N) : String.eqb (String_of_index i) "__proto__" = false.
Proof.
  apply String.eqb_neq. intros H.
  pose proof (integerRegExp_String_of_index i) as Ht. rewrite H in Ht. discriminate.
Qed.

Lemma index_keys_snoc (a m : nat) :
  index_keys a (S m) = index_keys a m ++ [String_of_index (N.of_nat (a + m))].
Proof. unfold index_keys. rewrite seq_S, map_app. reflexivity. Qed.

Lemma index_keys_order (m : nat) :
  forall a : nat, own_key_order (index_keys 0 a) (index_keys a m) = true.
Proof.
  induction m as [ | m IH]; intros a; [reflexivity|].
  unfold index_keys at 2. cbn [seq map own_key_order].
  fold (index_keys (S a) m).
  rewrite index_key_not_proto, (fresh_last_index_key a 0 a) by lia.
  cbn [negb andb].
  replace (index_keys 0 a ++ [String_of_index (N.of_nat a)]) with (index_keys 0 (S a))
    by (rewrite index_keys_snoc; reflexivity).
  apply IH.
Qed.

Lemma index_keys_integer (m : nat) :
  forall a : nat, all_integer_keys (index_keys a m) = true.
Proof.
  induction m as [ | m IH]; intros a; [reflexivity|].
  unfold index_keys. cbn [seq map all_integer_keys forallb].
  rewrite integerRegExp_String_of_index. apply (IH (S a)).
Qed.

Lemma index_keys_max (m : nat) :
  forall a : nat, max_key (index_keys a (S m)) = N.of_nat (a + m).
Proof.
  induction m as [ | m IH]; intros a.
  - unfold index_keys, max_key. cbn [seq map fold_left].
    rewrite Number_of_String. lia.
  - unfold index_keys. cbn [seq map]. rewrite max_key_cons.
    change (String_of_index (N.of_nat (S a)) :: map _ (seq (S (S a)) m))
      with (index_keys (S a) (S m)).
    rewrite IH, Number_of_String. lia.
Qed.

Lemma indexed_lookup (vs : list value) :
  forall a j : nat,
    obj_lookup (String_of_index (N.of_nat (a + j))) (indexed a vs) = vs !! j.
Proof.
  induction vs as [ | v vs IH]; intros a j; [reflexivity|].
  cbn [indexed obj_lookup].
  destruct j as [ | j].
  - rewrite Nat.add_0_r, String.eqb_refl. reflexivity.
  - replace (String.eqb (String_of_index (N.of_nat (a + S j))) (String_of_index (N.of_nat a)))
      with false
      by (symmetry; apply String.eqb_neq; intros H; apply String_of_index_inj in H; lia).
    replace (a + S j) with (S a + j) by lia. apply IH.
Qed.

Lemma indexed_length (vs : list value) :
  forall a : nat, length (indexed a vs) = length vs.
Proof. induction vs as [ | v vs IH]; intros a; simpl; [|rewrite IH]; reflexivity. Qed.

(** The loop on index-keyed entries: nothing gives the empty object,
    anything else the array of the values. *)
Lemma conv_loop_indexed (vs : list value) :
  conv_loop (indexed 0 vs)
  = match vs with
    | [] => VObj []
    | _ :: _ => VArr (map Some vs)
    end.
Proof.
  destruct vs as [ | v0 vs0]; [reflexivity|].
  set (vs := v0 :: vs0). set (entries := indexed 0 vs).
  assert (Hkeys : map fst entries = index_keys 0 (length vs)) by apply indexed_keys.
  assert (Hord : own_key_order [] (map fst entries) = true).
  { rewrite Hkeys. apply (index_keys_order (length vs) 0). }
  unfold conv_loop.
  destruct (conv_loop_state entries conv_init Hord) as (S1 & S2 & S3 & S4).
  cbn [conv_init cs_obj cs_numKeys cs_allIntegerKeys cs_maxKey app andb] in S1, S2, S3, S4.
  unfold conv_finish. rewrite S1, S2, S3, Hkeys, index_keys_integer.
  rewrite S4 by (rewrite S3, Hkeys; apply index_keys_integer).
  rewrite Hkeys. fold (max_key (index_keys 0 (length vs))).
  unfold entries at 1. rewrite indexed_length.
  assert (Hmax : max_key (index_keys 0 (length vs)) = N.of_nat (length vs0)).
  { unfold vs. cbn [length]. rewrite index_keys_max. reflexivity. }
  rewrite Hmax.
  replace (N.of_nat (length vs0) <? 2 * (0 + N.of_nat (length vs)))%N with true
    by (symmetry; apply N.ltb_lt; unfold vs; cbn [length]; lia).
  cbn [andb]. f_equal.
  rewrite to_array_sequence.
  - apply list_eq. intros j. unfold sequence_of.
    rewrite Hkeys, Hmax, !lookup_map_list, indices_lookup.
    replace (N.to_nat (N.of_nat (length vs0) + 1)) with (length vs)
      by (unfold vs; cbn [length]; lia).
    destruct (j <? length vs)%nat eqn:Hj; cbn [option_map].
    + pose proof (indexed_lookup vs 0 j) as Hl. cbn [Nat.add] in Hl.
      fold entries in Hl. rewrite Hl.
      apply Nat.ltb_lt in Hj. apply lookup_lt_is_Some in Hj. destruct Hj as [v ->].
      reflexivity.
    + apply Nat.ltb_ge in Hj. rewrite lookup_ge_None_2 by exact Hj. reflexivity.
  - unfold entries, vs. discriminate.
  - rewrite Hkeys. apply index_keys_integer.
  - apply (own_key_order_NoDup _ [] Hord).
Qed.

Lemma convert_never_undefined (node : value) :
  _checkAndConvertToArray node <> VUndef.
Proof.
  destruct node; cbn [_checkAndConvertToArray]; try discriminate;
    unfold conv_loop, conv_finish;
    match goal with |- (if ?c then _ else _) <> _ => destruct c; discriminate end.
Qed.

Lemma conv_missing_convert (c : value) :
  conv_missing (_checkAndConvertToArray c) = _checkAndConvertToArray c.
Proof.
  pose proof (convert_never_undefined c) as H.
  destruct (_checkAndConvertToArray c); try reflexivity. congruence.
Qed.

Lemma forEach_array_indexed (g : value -> value) (l : list (option value)) :
  map (fun kv => (fst kv, g (snd kv))) (forEach_array l)
  = indexed 0 (map (fun e => g (slot_value e)) l).
Proof.
  unfold forEach_array. generalize 0 as a.
  induction l as [ | e l IH]; intros a; [reflexivity|].
  cbn [length seq combine map indexed fst snd]. rewrite (IH (S a)). reflexivity.
Qed.

Lemma seq_entries_indexed (f : nat -> value) (m : nat) :
  forall a : nat,
    map (fun i => (String_of_index (N.of_nat i), f i)) (seq a m)
    = indexed a (map f (seq a m)).
Proof.
  induction m as [ | m IH]; intros a; [reflexivity|].
  cbn [seq map indexed]. rewrite (IH (S a)). reflexivity.
Qed.

(** X11.  On an array the normalizer returns the array of the
    normalized elements, a hole or an [undefined] element becoming
    [null]; on the empty array it returns the empty object. *)
Theorem normalizer_on_arrays (elems : list (option value)) :
  _checkAndConvertToArray (VArr elems)
  = match elems with
    | [] => VObj []
    | _ :: _ =>
        VArr (map (fun e => Some (match e with
                                  | Some c => _checkAndConvertToArray c
                                  | None => VNull
                                  end)) elems)
    end.
Proof.
  cbn [_checkAndConvertToArray].
  rewrite forEach_array_indexed, conv_loop_indexed, !map_map.
  destruct elems as [ | e elems]; [reflexivity|].
  cbn [map]. f_equal.
  assert (Hslot : forall e' : option value,
             conv_missing (slot_value (match e' with
                                       | Some c => Some (_checkAndConvertToArray c)
                                       | None => None
                                       end))
             = match e' with Some c => _checkAndConvertToArray c | None => VNull end).
  { intros [c | ]; [apply conv_missing_convert|reflexivity]. }
  rewrite Hslot. f_equal. apply map_ext. intros e'. rewrite Hslot. reflexivity.
Qed.

Lemma isLength_convert (o : option value) :
  isLength (option_map _checkAndConvertToArray o) = isLength o.
Proof.
  destruct o as [[ | | b | n | s | props | elems] | ]; try reflexivity;
    cbn [option_map _checkAndConvertToArray]; unfold conv_loop, conv_finish;
    match goal with |- isLength (Some (if ?c then _ else _)) = _ => destruct c; reflexivity end.
Qed.

(** X12.  On a mapping whose child [length] is an integer from 0 to
    2^32 - 1 (the largest length of an array), the normalizer goes by
    the indices below that number instead of the keys: length 0 gives
    the empty object, and a length [n] above 0 gives the array of [n]
    slots in which slot [i] holds the normalized child keyed by the
    decimal writing of [i], or [null] when the mapping has no such
    child. *)
Theorem normalizer_on_array_like (props : list (string * value)) (n : N) :
  isLength (obj_lookup "length" props) = Some n ->
  (n <= 4294967295)%N ->
  _checkAndConvertToArray (VObj props)
  = if (n =? 0)%N then VObj []
    else VArr (map (fun i => Some (normalized_child (String_of_index i) props))
                   (indices n)).
Proof.
  intros Hlen _. cbn [_checkAndConvertToArray]. rewrite Hlen.
  unfold forEach_object.
  rewrite obj_lookup_map_values, isLength_convert, Hlen.
  unfold indices. rewrite !map_map.
  rewrite (map_ext _
             (fun i => (String_of_index (N.of_nat i),
                        normalized_child (String_of_index (N.of_nat i)) props))).
  - rewrite seq_entries_indexed, conv_loop_indexed.
    destruct (N.to_nat n) as [ | m] eqn:Hn.
    + replace (n =? 0)%N with true by (symmetry; apply N.eqb_eq; lia). reflexivity.
    + replace (n =? 0)%N with false by (symmetry; apply N.eqb_neq; lia).
      rewrite map_map. reflexivity.
  - intros i. cbn [fst snd]. f_equal.
    rewrite obj_lookup_map_values. unfold normalized_child.
    destruct (obj_lookup (String_of_index (N.of_nat i)) props) as [c | ];
      [apply conv_missing_convert|reflexivity].
Qed.

Lemma normalizer_on_array_like_witness :
  _checkAndConvertToArray (VObj [("length", VNum 3); ("1", VStr "b")])
  = if (3 =? 0)%N then VObj []
    else VArr (map (fun i => Some (normalized_child (String_of_index i)
                                     [("length", VNum 3); ("1", VStr "b")]))
                   (indices 3)).
Proof.
  apply (normalizer_on_array_like [("length", VNum 3); ("1", VStr "b")] 3).
  - reflexivity.
  - vm_compute. discriminate.
Defined.

Lemma obj_lookup_length_indexed (vs : list value) :
  forall a : nat, obj_lookup "length" (indexed a vs) = None.
Proof.
  induction vs as [ | v vs IH]; intros a; [reflexivity|].
  cbn [indexed obj_lookup].
  replace (String.eqb "length" (String_of_index (N.of_nat a))) with false; [apply IH|].
  symmetry. apply String.eqb_neq. intros H.
  pose proof (integerRegExp_String_of_index (N.of_nat a)) as Ht.
  rewrite <- H in Ht. discriminate.
Qed.

Lemma convert_indexed (vs : list value) :
  forall a : nat,
    map (fun kv => match kv with (k, c) => (k, _checkAndConvertToArray c) end)
        (indexed a vs)
    = indexed a (map _checkAndConvertToArray vs).
Proof.
  induction vs as [ | v vs IH]; intros a; [reflexivity|].
  cbn [indexed map]. rewrite IH. reflexivity.
Qed.

(** X13.  A mapping whose keys are the decimal writings of 0, 1, ...,
    in this order, comes back as the array of its normalized children,
    in this order and without hole; with no child at all it comes back
    as the empty object. *)
Theorem dense_mapping_becomes_array (children : list value) :
  _checkAndConvertToArray (VObj (indexed 0 children))
  = match children with
    | [] => VObj []
    | _ :: _ => VArr (map (fun c => Some (_checkAndConvertToArray c)) children)
    end.
Proof.
  cbn [_checkAndConvertToArray].
  rewrite obj_lookup_length_indexed. cbn [isLength].
  rewrite convert_indexed, conv_loop_indexed.
  destruct children as [ | c children]; [reflexivity|].
  cbn [map]. rewrite map_map. reflexivity.
Qed.

(** ** Reading through a child *)

Lemma baseGet_undefined (path : list string) :
  path <> [] -> baseGet VUndef path = VUndef /\ baseGet VNull path = VUndef.
Proof. destruct path; [congruence|]. split; reflexivity. Qed.

Lemma baseGet_app (a b : list string) :
  forall node : value, baseGet node (a ++ b) = baseGet (baseGet node a) b.
Proof.
  induction a as [ | k a IH]; intros node; [reflexivity|].
  cbn [app baseGet].
  destruct node; try apply IH; destruct b; reflexivity.
Qed.

Lemma read_at_app (node : value) (a b : list string) :
  read_at node (a ++ b) = read_at (read_at node a) b.
Proof.
  destruct a as [ | ka a]; [reflexivity|].
  destruct b as [ | kb b]; [rewrite app_nil_r; reflexivity|].
  unfold read_at at 1 3. cbn [app].
  change (ka :: a ++ kb :: b) with ((ka :: a) ++ kb :: b).
  unfold get at 1. rewrite baseGet_app.
  unfold read_at, get.
  destruct node; try reflexivity;
    destruct (baseGet _ (ka :: a)); reflexivity.
Qed.

Lemma resolve_read_at {Apps AuthMode : Type} {U : Utils}
    (s : DeltaSnapshot Apps AuthMode) :
  resolve s = read_at (source s) (pathParts (_childPath s)).
Proof. unfold resolve, read_at. destruct (pathParts (_childPath s)); reflexivity. Qed.

(** The node that [child(p)] resolves, from the node that the receiver
    resolves. *)
Lemma resolve_child_fields {Apps AuthMode : Type} {U : Utils}
    (s : DeltaSnapshot Apps AuthMode) (p : string) :
  p <> EmptyString ->
  pathParts (Some (joinPath (_childPath s) p))
  = pathParts (_childPath s) ++ pathParts (Some p) ->
  resolve (child_fields s (Some p)) = read_at (resolve s) (pathParts (Some p)).
Proof.
  intros Hp Hjoin.
  rewrite !resolve_read_at.
  unfold child_fields. cbn [truthy]. rewrite (is_empty_false _ Hp). cbn [negb].
  rewrite dup_fields_childPath. cbn [truthy or_empty].
  rewrite (is_empty_false _ Hp). cbn [negb].
  rewrite Hjoin, read_at_app. f_equal.
  unfold source. rewrite dup_fields_isPrevious.
  destruct (dup_fields_same_envelope s (_isPrevious s) (Some p))
    as (_ & _ & _ & Hd & _ & Hn).
  rewrite Hd, Hn. reflexivity.
Qed.



(** ** The memoized references *)

Lemma read_references_cached {Apps AuthMode Reference : Type} {U : Utils}
    (forMode_ref : Apps -> option AuthMode -> string -> Reference)
    (admin_ref : Apps -> string -> Reference)
    (s : DeltaSnapshot Apps AuthMode) (which : list bool) :
  let r := forMode_ref (_apps s) (_auth s) (_fullPath s) in
  let a := admin_ref (_apps s) (_fullPath s) in
  forall (has_ref has_admin : bool) (log : list db_call),
    read_references forMode_ref admin_ref which
      (cached_instance s r a has_ref has_admin) log
    = (map (fun w : bool => if w then r else a) which,
       cached_instance s r a (has_ref || existsb id which)
         (has_admin || existsb negb which),
       log ++ calls_from (_fullPath s) has_ref has_admin which).
Proof.
  intros r a. induction which as [ | w which IH]; intros has_ref has_admin log.
  - cbn [read_references map existsb calls_from].
    rewrite !orb_false_r, app_nil_r. reflexivity.
  - cbn [read_references].
    destruct w.
    + assert (Hget : get_ref forMode_ref (cached_instance s r a has_ref has_admin) log
                     = (r, cached_instance s r a true has_admin,
                        log ++ (if has_ref then [] else [UserRefCall (_fullPath s)]))).
      { unfold get_ref, cached_instance. destruct has_ref; cbn.
        - rewrite app_nil_r. reflexivity.
        - reflexivity. }
      rewrite Hget, IH. cbn [map existsb calls_from id negb].
      rewrite <- app_assoc, !orb_true_r. cbn [orb]. reflexivity.
    + assert (Hget : get_adminRef admin_ref (cached_instance s r a has_ref has_admin) log
                     = (a, cached_instance s r a has_ref true,
                        log ++ (if has_admin then [] else [AdminRefCall (_fullPath s)]))).
      { unfold get_adminRef, cached_instance. destruct has_admin; cbn.
        - rewrite app_nil_r. reflexivity.
        - reflexivity. }
      rewrite Hget, IH. cbn [map existsb calls_from id negb].
      rewrite <- app_assoc, !orb_true_r. cbn [orb]. reflexivity.
Qed.

Lemma calls_from_shape (path : string) (which : list bool) :
  forall has_ref has_admin : bool,
    NoDup (calls_from path has_ref has_admin which) /\
    (forall c : db_call, In c (calls_from path has_ref has_admin which) ->
       (c = UserRefCall path /\ has_ref = false /\ In true which) \/
       (c = AdminRefCall path /\ has_admin = false /\ In false which)) /\
    (has_ref = false -> In true which ->
     In (UserRefCall path) (calls_from path has_ref has_admin which)) /\
    (has_admin = false -> In false which ->
     In (AdminRefCall path) (calls_from path has_ref has_admin which)).
Proof.
  induction which as [ | w which IH]; intros has_ref has_admin.
  - cbn [calls_from]. split; [apply NoDup_nil_2|].
    split; [intros c []|]. split; intros _ [].
  - destruct w; cbn [calls_from].
    + destruct (IH true has_admin) as (Hnd & Hin & _ & Hadm).
      destruct has_ref; cbn [app].
      * split; [exact Hnd|]. split.
        { intros c Hc. destruct (Hin c Hc) as [(_ & Hf & _) | (Hc' & Ha & Hw)];
            [discriminate|]. right. repeat split; try assumption. right. exact Hw. }
        split; [discriminate|].
        intros Ha [Hw | Hw]; [discriminate|]. apply Hadm; assumption.
      * split.
        { apply NoDup_cons. split; [|exact Hnd].
          rewrite list_elem_of_In. intros Hc.
          destruct (Hin _ Hc) as [(_ & Hf & _) | (Hc' & _)]; discriminate. }
        split.
        { intros c [<- | Hc].
          - left. repeat split. left. reflexivity.
          - destruct (Hin c Hc) as [(_ & Hf & _) | (Hc' & Ha & Hw)]; [discriminate|].
            right. repeat split; try assumption. right. exact Hw. }
        split; [intros _ _; left; reflexivity|].
        intros Ha [Hw | Hw]; [discriminate|]. right. apply Hadm; assumption.
    + destruct (IH has_ref true) as (Hnd & Hin & Husr & _).
      destruct has_admin; cbn [app].
      * split; [exact Hnd|]. split.
        { intros c Hc. destruct (Hin c Hc) as [(Hc' & Hr & Hw) | (_ & Hf & _)];
            [|discriminate]. left. repeat split; try assumption. right. exact Hw. }
        split; [|discriminate].
        intros Hr [Hw | Hw]; [discriminate|]. apply Husr; assumption.
      * split.
        { apply NoDup_cons. split; [|exact Hnd].
          rewrite list_elem_of_In. intros Hc.
          destruct (Hin _ Hc) as [(Hc' & _) | (_ & Hf & _)]; discriminate. }
        split.
        { intros c [<- | Hc].
          - right. repeat split. left. reflexivity.
          - destruct (Hin c Hc) as [(Hc' & Hr & Hw) | (_ & Hf & _)]; [|discriminate].
            left. repeat split; try assumption. right. exact Hw. }
        split; [|intros _ _; left; reflexivity].
        intros Hr [Hw | Hw]; [discriminate|]. right. apply Husr; assumption.
Qed.

(** X15.  Whatever run of accesses to [ref] and [adminRef] is made on an
    instance whose caches are empty: every access to [ref] returns what
    the database answered for the auth mode at the full path, every
    access to [adminRef] what it answered for the admin at the full
    path; the database is asked at most once per getter (once exactly
    when the getter is read), always at the full path; the fields of the
    instance stay as they were. *)
Theorem references_are_memoized {Apps AuthMode Reference : Type} {U : Utils}
    (forMode_ref : Apps -> option AuthMode -> string -> Reference)
    (admin_ref : Apps -> string -> Reference)
    (s : DeltaSnapshot Apps AuthMode) (which : list bool) (log : list db_call) :
  exists (this' : Instance Apps AuthMode Reference) (calls : list db_call),
    read_references forMode_ref admin_ref which (fresh_instance s) log
    = (map (fun w : bool =>
              if w then forMode_ref (_apps s) (_auth s) (_fullPath s)
              else admin_ref (_apps s) (_fullPath s)) which,
       this', log ++ calls) /\
    inst_fields this' = s /\
    NoDup calls /\
    (forall c : db_call, In c calls ->
       c = UserRefCall (_fullPath s) \/ c = AdminRefCall (_fullPath s)) /\
    (In (UserRefCall (_fullPath s)) calls <-> In true which) /\
    (In (AdminRefCall (_fullPath s)) calls <-> In false which).
Proof.
  pose proof (read_references_cached forMode_ref admin_ref s which false false log) as Hrun.
  cbn zeta in Hrun.
  destruct (calls_from_shape (_fullPath s) which false false) as (Hnd & Hin & Husr & Hadm).
  eexists _, _. split; [exact Hrun|].
  split; [reflexivity|]. split; [exact Hnd|].
  split.
  { intros c Hc. destruct (Hin c Hc) as [(-> & _) | (-> & _)]; [left|right]; reflexivity. }
  split; split.
  - intros Hc. destruct (Hin _ Hc) as [(_ & _ & Hw) | (Hf & _)]; [exact Hw|discriminate].
  - apply Husr. reflexivity.
  - intros Hc. destruct (Hin _ Hc) as [(Hf & _) | (_ & _ & Hw)]; [discriminate|exact Hw].
  - apply Hadm. reflexivity.
Qed.

(** ** Existence and children *)

Lemma convert_is_null (node : value) :
  is_null (_checkAndConvertToArray node) = is_null node || is_undefined node.
Proof.
  destruct node; try reflexivity;
    cbn [_checkAndConvertToArray]; unfold conv_loop, conv_finish;
    match goal with |- is_null (if ?c then _ else _) = _ => destruct c; reflexivity end.
Qed.

Lemma exists_resolve {Apps AuthMode : Type} {U : Utils}
    (s : DeltaSnapshot Apps AuthMode) :
  exists_ s = negb (is_null (resolve s) || is_undefined (resolve s)).
Proof. unfold exists_, val. rewrite convert_cloneDeep, convert_is_null. reflexivity. Qed.

(** X16.  [exists()] is false exactly when the node resolved at the
    offset is [null] or [undefined] (an empty mapping or array exists);
    and on a boolean, number or string leaf, [val()] is the leaf itself,
    [hasChildren()] is false and [numChildren()] is 0. *)
Theorem exists_iff_node_present {Apps AuthMode : Type} {U : Utils}
    (s : DeltaSnapshot Apps AuthMode) :
  (exists_ s = false <-> resolve s = VNull \/ resolve s = VUndef) /\
  match resolve s with
  | VBool _ | VNum _ | VStr _ =>
      val s = resolve s /\ hasChildren s = false /\ numChildren s = 0
  | _ => True
  end.
Proof.
  split.
  - rewrite exists_resolve.
    destruct (resolve s); simpl; split;
      try discriminate; try (intros [H | H]; discriminate);
      intros _; auto.
  - unfold hasChildren, numChildren, val.
    destruct (resolve s); try exact I; repeat split.
Qed.

(** X17.  When the node resolved at the offset is a mapping whose keys
    are in property order, none of them [__proto__], and whose child
    [length], if any, is not a valid length: [numChildren()] is the
    number of its keys, [hasChildren()] tells whether it has one, and
    the keys of [val()] are its keys in order, unless all its keys are
    integers with the largest below twice their number: the value is
    then an array, for which [numChildren()] is 0 and [hasChildren()]
    false.  (A child named [__proto__] is not counted: see
    [convert_proto_child].) *)
Theorem children_of_stored_mapping {Apps AuthMode : Type} {U : Utils}
    (s : DeltaSnapshot Apps AuthMode) (props : list (string * value)) :
  resolve s = VObj props ->
  js_object props = true ->
  array_like props = false ->
  let dense :=
    all_integer_keys (map fst props)
    && (max_key (map fst props) <? 2 * N.of_nat (length props))%N in
  numChildren s = (if dense then 0 else length props) /\
  hasChildren s = negb dense && negb (is_nil props) /\
  (dense = false -> keys (val s) = map fst props).
Proof.
  intros Hr Hjs Hal dense.
  assert (Hv : val s = if dense then VArr (sequence_of (normalized_children props))
                       else VObj (normalized_children props)).
  { unfold val. rewrite convert_cloneDeep, Hr. apply convert_plain_mapping; assumption. }
  unfold numChildren, hasChildren. rewrite Hv.
  destruct dense.
  - repeat split. discriminate.
  - cbn [isPlainObject keys]. rewrite normalized_children_keys, length_map.
    split; [reflexivity|]. split; [|reflexivity].
    destruct props; reflexivity.
Qed.

Lemma children_of_stored_mapping_witness :
  let U := SpecUtils.spec_utils in
  let props := [("a", VNum 2)] in
  let dense :=
    all_integer_keys (map fst props)
    && (max_key (map fst props) <? 2 * N.of_nat (length props))%N in
  numChildren example_root = (if dense then 0 else length props) /\
  hasChildren example_root = negb dense && negb (is_nil props) /\
  (dense = false -> keys (val example_root) = map fst props).
Proof.
  apply (children_of_stored_mapping (U := SpecUtils.spec_utils) example_root [("a", VNum 2)]);
    reflexivity.
Defined.

Lemma read_at_absent (parts : list string) :
  read_at VNull parts = VNull /\
  (read_at VUndef parts = VNull \/ read_at VUndef parts = VUndef).
Proof. destruct parts; split; try reflexivity; [right|left]; reflexivity. Qed.

(** X18.  A node with a descendant exists: when the segments of the
    joined offset are those of the receiver's offset followed by those
    of [p], [hasChild(p)] true makes [exists()] true. *)
Theorem hasChild_implies_exists {Apps AuthMode : Type} {U : Utils}
    (s : DeltaSnapshot Apps AuthMode) (p : string) :
  p <> EmptyString ->
  pathParts (Some (joinPath (_childPath s) p))
  = pathParts (_childPath s) ++ pathParts (Some p) ->
  hasChild s (Some p) = true ->
  exists_ s = true.
Proof.
  intros Hp Hjoin. unfold hasChild.
  rewrite !exists_resolve, (resolve_child_fields s p Hp Hjoin).
  destruct (read_at_absent (pathParts (Some p))) as [Hn [Hu | Hu]];
    destruct (resolve s); try reflexivity;
    rewrite ?Hn, ?Hu; discriminate.
Qed.

Lemma hasChild_implies_exists_witness :
  exists_ (U := SpecUtils.spec_utils) example_root = true.
Proof.
  apply (hasChild_implies_exists (U := SpecUtils.spec_utils) example_root "a").
  - discriminate.
  - reflexivity.
  - reflexivity.
Defined.

(** X19.  A sequence of navigation steps only appends to the heap: the
    heap it leaves is the one it found followed by at most one new
    instance per step, and the instance reached has the fields that the
    steps compute from the receiver's. *)
Theorem navigation_only_appends {Apps AuthMode : Type} {U : Utils}
    (ops : list nav) (this : loc) (h : heap Apps AuthMode)
    (s : DeltaSnapshot Apps AuthMode) :
  h !! this = Some s ->
  exists (r : loc) (h' fresh : heap Apps AuthMode),
    navigate_all ops this h = Some (r, h') /\
    h' = h ++ fresh /\ length fresh <= length ops /\
    h' !! r = Some (nav_fields_all ops s) /\
    (r = this \/ length h <= r).
Proof.
  intros Hs.
  destruct (navigate_all_result ops this h s Hs) as (r & h' & fresh & Hn & Hr & Hh & Hl).
  exists r, h', fresh. repeat (split; [assumption|]).
  destruct (Nat.lt_ge_cases r (length h)) as [Hlt | Hge]; [|right; exact Hge].
  left. clear Hl Hr Hh. revert this h s Hs r h' Hn Hlt.
  induction ops as [ | op ops IH]; intros this h s Hs r h' Hn Hlt.
  - simpl in Hn. congruence.
  - cbn [navigate_all] in Hn.
    destruct (navigate_result op this h s Hs) as (r1 & h1 & Hn1 & Hk1 & Hl1).
    rewrite Hn1 in Hn.
    assert (Hstep : (r1 = this /\ h1 = h) \/ (r1 = length h /\ length h < length h1)).
    { destruct op as [p | | ]; simpl in Hn1;
        unfold child, previous, current, _dup, alloc in Hn1; rewrite Hs in Hn1;
        repeat match type of Hn1 with
               | context [if ?c then _ else _] => destruct c
               end;
        injection Hn1 as <- <-; auto; right; rewrite length_app; simpl; split; lia. }
    destruct Hstep as [[-> ->] | [-> Hgrow]].
    + apply (IH this h s Hs r h' Hn Hlt).
    + exfalso.
      destruct (navigate_all_result ops (length h) h1 _ Hl1)
        as (r' & h'' & fresh' & Hn' & _ & _ & _).
      rewrite Hn in Hn'. injection Hn' as <- <-.
      assert (Hbad : r = length h \/ length h1 <= r).
      { clear -IH Hn Hl1 Hgrow.
        destruct (Nat.lt_ge_cases r (length h1)) as [Hlt' | Hge']; [|right; exact Hge'].
        left. apply (IH (length h) h1 _ Hl1 r h' Hn Hlt'). }
      lia.
Qed.

Lemma navigation_only_appends_witness :
  let U := SpecUtils.spec_utils in
  exists (r : loc) (h' fresh : heap unit unit),
    navigate_all [NavChild (Some "a"); NavPrevious] 0 [example_root] = Some (r, h') /\
    h' = [example_root] ++ fresh /\ length fresh <= 2 /\
    h' !! r = Some (nav_fields_all [NavChild (Some "a"); NavPrevious] example_root) /\
    (r = 0 \/ length [example_root] <= r).
Proof.
  apply (navigation_only_appends (U := SpecUtils.spec_utils)
           [NavChild (Some "a"); NavPrevious] 0 [example_root] example_root).
  reflexivity.
Defined.

(** X20.  [forEach] calls the visitor as many times as [numChildren()]
    counts, whatever the visitor answers. *)
Theorem forEach_calls_numChildren_times {Apps AuthMode W : Type} {U : Utils}
    (action : visitor Apps AuthMode W) (this : loc)
    (h : heap Apps AuthMode) (w : W) (s : DeltaSnapshot Apps AuthMode) :
  visitor_keeps action ->
  h !! this = Some s ->
  exists (h' : heap Apps AuthMode) (w' : W)
         (log : list (option (DeltaSnapshot Apps AuthMode))),
    forEach this (logged action) h (w, []) = Some (false, h', (w', log)) /\
    length log = numChildren s.
Proof.
  intros Hact Hs. unfold forEach, numChildren. rewrite Hs.
  destruct (isPlainObject (val s)).
  - destruct (forEach_keys_logged action this s Hact (keys (val s)) h w [] Hs)
      as (h' & w' & Hrun & _).
    eexists _, _, _. rewrite Hrun. split; [reflexivity|].
    cbn [app]. rewrite length_map. reflexivity.
  - exists h, w, []. split; reflexivity.
Qed.

Lemma forEach_calls_numChildren_times_witness :
  let U := SpecUtils.spec_utils in
  exists (h' : heap unit unit) (w' : nat)
         (log : list (option (DeltaSnapshot unit unit))),
    forEach 0 (logged counting_visitor) [example_root] (0, []) = Some (false, h', (w', log)) /\
    length log = numChildren example_root.
Proof.
  apply (forEach_calls_numChildren_times (U := SpecUtils.spec_utils)
           counting_visitor 0 [example_root] 0 example_root).
  - intros c h w l x Hl. exact Hl.
  - reflexivity.
Defined.

(** X21.  The previous view shows the base and nothing of the change:
    two instances with the same base tree and offset have the same
    previous [val()], whatever their delta and derived trees; likewise
    the current view depends on the derived tree and the offset only. *)
Theorem views_read_their_own_tree {Apps AuthMode : Type} {U : Utils}
    (s1 s2 : DeltaSnapshot Apps AuthMode) :
  _childPath s1 = _childPath s2 ->
  (_data s1 = _data s2 -> val (previous_fields s1) = val (previous_fields s2)) /\
  (_newData s1 = _newData s2 -> val (current_fields s1) = val (current_fields s2)).
Proof.
  intros Hcp.
  assert (Hp : forall s : DeltaSnapshot Apps AuthMode,
             val (previous_fields s)
             = _checkAndConvertToArray
                 (cloneDeep (read_at (_data s) (pathParts (_childPath s))))).
  { intros s. unfold val. rewrite resolve_read_at. unfold previous_fields, source.
    destruct (_isPrevious s) eqn:Hf; [rewrite Hf; reflexivity|].
    rewrite dup_fields_isPrevious, dup_fields_childPath.
    destruct (dup_fields_same_envelope s true None) as (_ & _ & _ & -> & _).
    reflexivity. }
  assert (Hc : forall s : DeltaSnapshot Apps AuthMode,
             val (current_fields s)
             = _checkAndConvertToArray
                 (cloneDeep (read_at (_newData s) (pathParts (_childPath s))))).
  { intros s. unfold val. rewrite resolve_read_at. unfold current_fields, source.
    destruct (_isPrevious s) eqn:Hf; [|rewrite Hf; reflexivity].
    rewrite dup_fields_isPrevious, dup_fields_childPath.
    destruct (dup_fields_same_envelope s false None) as (_ & _ & _ & _ & _ & ->).
    reflexivity. }
  split; intros Ht; [rewrite !Hp|rewrite !Hc]; rewrite Hcp, Ht; reflexivity.
Qed.

Lemma views_read_their_own_tree_witness :
  let U := SpecUtils.spec_utils in
  (_data example_root = _data example_root_other ->
   val (previous_fields example_root) = val (previous_fields example_root_other)) /\
  (_newData example_root = _newData example_root_again ->
   val (current_fields example_root) = val (current_fields example_root_again)).
Proof.
  split.
  - apply (views_read_their_own_tree (U := SpecUtils.spec_utils)
             example_root example_root_other).
    reflexivity.
  - apply (views_read_their_own_tree (U := SpecUtils.spec_utils)
             example_root example_root_again).
    reflexivity.
Defined.

Lemma max_key_bound (k : string) (ks : list string) :
  In k ks -> (Number k <= max_key ks)%N.
Proof.
  induction ks as [ | k' ks IH]; [intros []|].
  rewrite max_key_cons. intros [-> | Hin]; [lia|]. specialize (IH Hin). lia.
Qed.

Lemma obj_lookup_in_keys (k : string) (props : list (string * value)) (c : value) :
  obj_lookup k props = Some c -> In k (map fst props).
Proof.
  induction props as [ | [k' c'] props IH]; simpl; [discriminate|].
  destruct (String.eqb k k') eqn:He.
  - apply String.eqb_eq in He. intros _. left. symmetry. exact He.
  - intros H. right. apply IH, H.
Qed.

(** X22.  Turning a mapping into an array loses no child and leaves at
    most as many holes as there are children: for a mapping in property
    order, without a valid [length] child, whose keys are all integers
    with the largest below twice their number, the result is an array of
    length the largest key plus one, at most twice the number of keys,
    and the normalized child of every key is in the slot of that key's
    value. *)
Theorem dense_mapping_keeps_children (props : list (string * value))
    (k : string) (c : value) :
  js_object props = true ->
  array_like props = false ->
  all_integer_keys (map fst props) = true ->
  (max_key (map fst props) < 2 * N.of_nat (length props))%N ->
  obj_lookup k props = Some c ->
  exists arr : list (option value),
    _checkAndConvertToArray (VObj props) = VArr arr /\
    length arr = N.to_nat (max_key (map fst props)) + 1 /\
    length arr <= 2 * length props /\
    arr !! N.to_nat (Number k) = Some (Some (_checkAndConvertToArray c)).
Proof.
  intros Hjs Hal Hall Hd Hk.
  exists (sequence_of (normalized_children props)).
  split.
  { rewrite convert_plain_mapping by assumption.
    rewrite Hall. apply N.ltb_lt in Hd. rewrite Hd. reflexivity. }
  unfold sequence_of. rewrite normalized_children_keys.
  assert (Hlen : length (indices (max_key (map fst props) + 1))
                 = N.to_nat (max_key (map fst props)) + 1).
  { unfold indices. rewrite length_map, length_seq. lia. }
  rewrite length_map, Hlen.
  split; [reflexivity|]. split; [lia|].
  pose proof (obj_lookup_in_keys k props c Hk) as Hin.
  pose proof (max_key_bound k _ Hin) as Hb.
  assert (Htest : integerRegExp_test k = true).
  { unfold all_integer_keys in Hall. rewrite forallb_forall in Hall. apply Hall, Hin. }
  rewrite lookup_map_list, indices_lookup.
  replace (N.to_nat (Number k) <? N.to_nat (max_key (map fst props) + 1))%nat with true
    by (symmetry; apply Nat.ltb_lt; lia).
  cbn [option_map]. rewrite N2Nat.id, (String_of_Number k Htest).
  rewrite <- normalized_children_map, obj_lookup_map_values, Hk. reflexivity.
Qed.

Lemma dense_mapping_keeps_children_witness :
  exists arr : list (option value),
    _checkAndConvertToArray (VObj [("0", VStr "a"); ("2", VStr "c")]) = VArr arr /\
    length arr = N.to_nat (max_key (map fst [("0", VStr "a"); ("2", VStr "c")])) + 1 /\
    length arr <= 2 * length [("0", VStr "a"); ("2", VStr "c")] /\
    arr !! N.to_nat (Number "2") = Some (Some (_checkAndConvertToArray (VStr "c"))).
Proof.
  apply (dense_mapping_keeps_children [("0", VStr "a"); ("2", VStr "c")] "2" (VStr "c"));
    reflexivity.
Defined.

(** ** Segments of the modelled paths *)















(** ** Keys of children *)




